(** * dmview: the session store and the subscription broadcaster

    A shallow embedding of [server/app/state.py] (class [SessionManager]),
    [server/app/models.py] (the pydantic models) and the class
    [WebSocketManager] and the request handlers of [server/app/main.py],
    followed by the properties of the specification that concern them and
    by further properties of the code.

    Modelling conventions.
    - A Python [float] is an IEEE binary64 value: [spec_float] of the
      standard library with [prec = 53] and [emax = 1024]; arithmetic rounds
      to nearest even, comparisons are the IEEE ones (false on NaN).
    - A Python [str] is a [string] of 7-bit characters; [upper] and [strip]
      are the ASCII restrictions of [str.upper] and [str.strip].
    - A Python [dict] whose iteration order matters (the [id_to_token] maps,
      the dumps of a model) is an association list kept in insertion order;
      the store [_sessions] and the registry [_connections], which are only
      looked up by key, are [gmap]s.
    - A raised exception is the [Raise] branch of [Result]; every method
      body runs under the manager's lock, so a method is one atomic state
      transformer.
    - [uuid4().hex] and [datetime.utcnow()] are inputs of the operation that
      calls them. *)

From Stdlib Require Import ZArith List String Ascii Bool Lia SpecFloat.
From stdpp Require Import base option list gmap strings.

Local Open Scope Z_scope.
Local Open Scope string_scope.
Local Open Scope list_scope.

(** ** Exceptions *)

Inductive Exn :=
| HTTPException (status_code : Z) (detail : string)
| ZeroDivisionError
| ValidationError
| RuntimeError
| WebSocketDisconnect.

Inductive Result (A : Type) :=
| Ok (a : A)
| Raise (e : Exn).
Arguments Ok {A} a.
Arguments Raise {A} e.

Definition bind {A B} (r : Result A) (k : A -> Result B) : Result B :=
  match r with
  | Ok a => k a
  | Raise e => Raise e
  end.

Notation "'do' x <- r ; k" := (bind r (fun x => k))
  (at level 10, x name, r at level 100, k at level 200).

Definition HTTP_400_BAD_REQUEST : Z := 400.
Definition HTTP_404_NOT_FOUND : Z := 404.

(** ** Python floats *)

Module PyFloat.

Definition float := spec_float.

Definition prec : Z := 53.
Definition emax : Z := 1024.

Definition f0_0 : float := S754_zero false.
Definition f0_05 : float := S754_finite false 7205759403792794 (-57).
Definition f0_2 : float := S754_finite false 7205759403792794 (-55).
Definition f0_5 : float := S754_finite false 4503599627370496 (-53).
Definition f0_95 : float := S754_finite false 8556839292003942 (-53).
Definition f1_0 : float := S754_finite false 4503599627370496 (-52).
Definition f8_0 : float := S754_finite false 4503599627370496 (-49).
Definition f360 : float := S754_finite false 6333186975989760 (-44).

(** [a < b], [a > b], [a <= b] and [a == b] on floats. *)
Definition lt (a b : float) : bool := SFltb a b.
Definition gt (a b : float) : bool := SFltb b a.
Definition le (a b : float) : bool := SFleb a b.
Definition eq (a b : float) : bool := SFeqb a b.

(** The builtins [min(a, b)] and [max(a, b)]: the first argument is kept
    unless the second is strictly smaller (resp. larger). *)
Definition min (a b : float) : float := if lt b a then b else a.
Definition max (a b : float) : float := if gt b a then b else a.

Definition add (a b : float) : float := SFadd prec emax a b.
Definition sub (a b : float) : float := SFsub prec emax a b.

(** [a / b]: division by a zero raises. *)
Definition truediv (a b : float) : Result float :=
  if eq b f0_0 then Raise ZeroDivisionError else Ok (SFdiv prec emax a b).

(** C's [fmod]: the exact remainder of the truncated division, with the
    sign of the dividend. Both operands are integers once scaled by the
    smaller exponent, and the remainder is exactly representable. *)
Definition fmod (x y : float) : float :=
  match x, y with
  | S754_nan, _ | _, S754_nan => S754_nan
  | S754_infinity _, _ => S754_nan
  | _, S754_zero _ => S754_nan
  | _, S754_infinity _ => x
  | S754_zero _, _ => x
  | S754_finite sx mx ex, S754_finite _ my ey =>
      let e := Z.min ex ey in
      let X := Z.pos mx * 2 ^ (ex - e) in
      let Y := Z.pos my * 2 ^ (ey - e) in
      binary_normalize prec emax (cond_Zopp sx (X mod Y)) e sx
  end.

Definition copysign_zero (w : float) : float :=
  match w with
  | S754_zero s | S754_infinity s | S754_finite s _ _ => S754_zero s
  | S754_nan => S754_zero false
  end.

(** [v % w] (CPython's [float_rem]): [fmod], then the divisor is added
    when the signs differ; a zero remainder takes the divisor's sign. *)
Definition rem (v w : float) : Result float :=
  if eq w f0_0 then Raise ZeroDivisionError
  else
    let m := fmod v w in
    if eq m f0_0 then Ok (copysign_zero w)
    else if negb (Bool.eqb (lt w f0_0) (lt m f0_0)) then Ok (add m w)
    else Ok m.

End PyFloat.

Abbreviation float := PyFloat.float.

(** ** Python strings *)

Definition is_lower_char (c : ascii) : bool :=
  let n := nat_of_ascii c in (97 <=? n)%nat && (n <=? 122)%nat.

Definition upper_char (c : ascii) : ascii :=
  if is_lower_char c then ascii_of_nat (nat_of_ascii c - 32) else c.

(** [s.upper()] *)
Fixpoint upper (s : string) : string :=
  match s with
  | EmptyString => EmptyString
  | String c r => String (upper_char c) (upper r)
  end.

(** [c.isspace()] on 7-bit characters: TAB, LF, VT, FF, CR, the four
    separators FS, GS, RS, US and the space. *)
Definition is_space (c : ascii) : bool :=
  let n := nat_of_ascii c in
  ((9 <=? n)%nat && (n <=? 13)%nat) || ((28 <=? n)%nat && (n <=? 32)%nat).

Fixpoint lstrip (s : string) : string :=
  match s with
  | EmptyString => EmptyString
  | String c r => if is_space c then lstrip r else s
  end.

Fixpoint rstrip (s : string) : string :=
  match s with
  | EmptyString => EmptyString
  | String c r =>
      match rstrip r with
      | EmptyString => if is_space c then EmptyString else String c EmptyString
      | r' => String c r'
      end
  end.

(** [s.strip()] *)
Definition strip (s : string) : string := rstrip (lstrip s).

(** Truth value of a [str]: the empty string is false. *)
Definition str_truthy (s : string) : bool :=
  match s with
  | EmptyString => false
  | String _ _ => true
  end.

(** [s[:n]] *)
Fixpoint str_prefix (n : nat) (s : string) : string :=
  match n, s with
  | S n', String c r => String c (str_prefix n' r)
  | _, _ => EmptyString
  end.

(** ** The pydantic models ([models.py]) *)

Inductive Kind := pc | npc | prop.

Module WarpPoint.
Record t := mk { x : float; y : float }.
End WarpPoint.

Definition DEFAULT_WARP : list WarpPoint.t :=
  [ WarpPoint.mk PyFloat.f0_05 PyFloat.f0_05;
    WarpPoint.mk PyFloat.f0_95 PyFloat.f0_05;
    WarpPoint.mk PyFloat.f0_95 PyFloat.f0_95;
    WarpPoint.mk PyFloat.f0_05 PyFloat.f0_95 ].

Module WarpConfig.
Record t := mk { corners : list WarpPoint.t }.
Definition default : t := mk DEFAULT_WARP.
End WarpConfig.

Module MapView.
Record t := mk { center : WarpPoint.t; zoom : float; rotation : float }.
Definition default : t :=
  mk (WarpPoint.mk PyFloat.f0_5 PyFloat.f0_5) PyFloat.f1_0 PyFloat.f0_0.
End MapView.

Module MapState.
Record t := mk {
  image_url : option string;
  warp : WarpConfig.t;
  grid_size : option float;
  view : MapView.t }.
Definition default : t := mk None WarpConfig.default None MapView.default.
Definition set_image_url (u : option string) (m : t) : t :=
  mk u (warp m) (grid_size m) (view m).
Definition set_warp (w : WarpConfig.t) (m : t) : t :=
  mk (image_url m) w (grid_size m) (view m).
Definition set_view (v : MapView.t) (m : t) : t :=
  mk (image_url m) (warp m) (grid_size m) v.
End MapState.

(** A value stored in the [dict] that [model_dump] returns. *)
Inductive PyVal :=
| PNone
| PInt (n : Z)
| PFloat (f : float)
| PDict (d : list (string * Z)).

Definition is_not_None (v : PyVal) : bool :=
  match v with
  | PNone => false
  | _ => true
  end.

(** Insertion-ordered dictionaries with string keys. *)
Module Dict.
Section Ops.
Context {V : Type}.

Definition t := list (string * V).

Fixpoint get (d : t) (k : string) : option V :=
  match d with
  | [] => None
  | (k', v) :: r => if String.eqb k' k then Some v else get r k
  end.

(** [d[k] = v]: an existing key keeps its position. *)
Fixpoint set (d : t) (k : string) (v : V) : t :=
  match d with
  | [] => [(k, v)]
  | (k', v') :: r =>
      if String.eqb k' k then (k', v) :: r else (k', v') :: set r k v
  end.

(** [d.pop(k, None)] *)
Fixpoint pop (d : t) (k : string) : option V * t :=
  match d with
  | [] => (None, [])
  | (k', v) :: r =>
      if String.eqb k' k then (Some v, r)
      else let '(o, r') := pop r k in (o, (k', v) :: r')
  end.

Definition keys (d : t) : list string := map fst d.
Definition values (d : t) : list V := map snd d.

(** [d.update(other)] *)
Definition update (d other : t) : t :=
  fold_left (fun acc kv => set acc (fst kv) (snd kv)) other d.
End Ops.
Arguments t : clear implicits.
End Dict.

Module TokenStats.
(** [fields_set] is pydantic's [model_fields_set]: the names of the
    fields given explicitly when the instance was built. *)
Record t := mk {
  hp : option Z;
  max_hp : option Z;
  initiative : option float;
  spell_slots : Dict.t Z;
  fields_set : list string }.

(** [TokenStats()] *)
Definition default : t := mk None None None [] [].

Definition all_fields : list string := ["hp"; "max_hp"; "initiative"; "spell_slots"].

Definition opt_int (o : option Z) : PyVal :=
  match o with Some n => PInt n | None => PNone end.
Definition opt_float (o : option float) : PyVal :=
  match o with Some f => PFloat f | None => PNone end.

(** [s.model_dump()] *)
Definition model_dump (s : t) : Dict.t PyVal :=
  [ ("hp", opt_int (hp s));
    ("max_hp", opt_int (max_hp s));
    ("initiative", opt_float (initiative s));
    ("spell_slots", PDict (spell_slots s)) ].

Definition is_set (s : t) (k : string) : bool :=
  existsb (String.eqb k) (fields_set s).

(** [s.model_dump(exclude_unset=True)] *)
Definition model_dump_exclude_unset (s : t) : Dict.t PyVal :=
  List.filter (fun kv => is_set s (fst kv)) (model_dump s).

Definition as_opt_int (v : option PyVal) : Result (option Z) :=
  match v with
  | None | Some PNone => Ok None
  | Some (PInt n) => Ok (Some n)
  | Some _ => Raise ValidationError
  end.

Definition as_opt_float (v : option PyVal) : Result (option float) :=
  match v with
  | None | Some PNone => Ok None
  | Some (PFloat f) => Ok (Some f)
  | Some _ => Raise ValidationError
  end.

Definition as_dict (v : option PyVal) : Result (Dict.t Z) :=
  match v with
  | None => Ok []
  | Some (PDict d) => Ok d
  | Some _ => Raise ValidationError
  end.

(** [TokenStats] built from the keyword arguments [kwargs]: the fields
    named there are the set ones. *)
Definition init (kwargs : Dict.t PyVal) : Result t :=
  do h <- as_opt_int (Dict.get kwargs "hp");
  do m <- as_opt_int (Dict.get kwargs "max_hp");
  do i <- as_opt_float (Dict.get kwargs "initiative");
  do sl <- as_dict (Dict.get kwargs "spell_slots");
  Ok (mk h m i sl
        (List.filter (fun k => existsb (String.eqb k) (Dict.keys kwargs))
           all_fields)).
End TokenStats.

Module Token.
Record t := mk {
  id : string;
  name : string;
  kind : Kind;
  color : string;
  x : float;
  y : float;
  visible : bool;
  notes : option string;
  stats : TokenStats.t }.
End Token.

Module TokenPreset.
Record t := mk {
  id : string;
  name : string;
  kind : Kind;
  color : string;
  stats : TokenStats.t;
  notes : option string }.
End TokenPreset.

Module SessionState.
(** [updated_at] is a [datetime]: a count of microseconds. *)
Record t := mk {
  id : string;
  name : option string;
  map : MapState.t;
  tokens : list Token.t;
  token_order : list string;
  presets : list TokenPreset.t;
  updated_at : Z }.

(** [SessionState(id=i, name=n)], built at time [now]. *)
Definition init (i : string) (n : option string) (now : Z) : t :=
  mk i n MapState.default [] [] [] now.

Definition set_map (m : MapState.t) (s : t) : t :=
  mk (id s) (name s) m (tokens s) (token_order s) (presets s) (updated_at s).
Definition set_tokens (l : list Token.t) (s : t) : t :=
  mk (id s) (name s) (map s) l (token_order s) (presets s) (updated_at s).
Definition set_token_order (o : list string) (s : t) : t :=
  mk (id s) (name s) (map s) (tokens s) o (presets s) (updated_at s).
Definition set_presets (p : list TokenPreset.t) (s : t) : t :=
  mk (id s) (name s) (map s) (tokens s) (token_order s) p (updated_at s).
Definition set_updated_at (u : Z) (s : t) : t :=
  mk (id s) (name s) (map s) (tokens s) (token_order s) (presets s) u.
End SessionState.

Module SessionCreateRequest.
Record t := mk { name : option string; session_id : option string }.
End SessionCreateRequest.

Module MapUrlRequest.
Record t := mk { url : string }.
End MapUrlRequest.

Module TokenCreateRequest.
Record t := mk {
  name : string;
  kind : Kind;
  color : string;
  x : float;
  y : float;
  visible : bool;
  notes : option string;
  stats : TokenStats.t }.
End TokenCreateRequest.

Module TokenUpdateRequest.
Record t := mk {
  name : option string;
  kind : option Kind;
  color : option string;
  x : option float;
  y : option float;
  visible : option bool;
  notes : option string;
  stats : option TokenStats.t }.
Definition empty : t := mk None None None None None None None None.
End TokenUpdateRequest.

Module TokenOrderUpdateRequest.
Record t := mk { order : list string }.
End TokenOrderUpdateRequest.

Module PresetCreateRequest.
Record t := mk {
  name : string;
  kind : Kind;
  color : string;
  stats : TokenStats.t;
  notes : option string }.
End PresetCreateRequest.

Module PresetUpdateRequest.
Record t := mk {
  name : option string;
  kind : option Kind;
  color : option string;
  stats : option TokenStats.t;
  notes : option string }.
End PresetUpdateRequest.

(** ** The session store ([state.py]) *)

Definition _clamp_unit (value : option float) : option float :=
  match value with
  | None => None
  | Some v => Some (PyFloat.max PyFloat.f0_0 (PyFloat.min PyFloat.f1_0 v))
  end.

(** [_clamp_unit(value) if value is not None else default] *)
Definition _clamp_or_default (value : option float) (default : float) : float :=
  match value with
  | Some _ => match _clamp_unit value with Some r => r | None => default end
  | None => default
  end.

Module SessionManager.

(** The attribute [_sessions]. *)
Abbreviation store := (gmap string SessionState.t).

Definition session_exists : Exn :=
  HTTPException HTTP_400_BAD_REQUEST "Session ID already exists".
Definition session_not_found : Exn :=
  HTTPException HTTP_404_NOT_FOUND "Session not found".
Definition token_not_found : Exn :=
  HTTPException HTTP_404_NOT_FOUND "Token not found".
Definition preset_not_found : Exn :=
  HTTPException HTTP_404_NOT_FOUND "Preset not found".

(** [uuid4().hex[:6].upper()], for the value [u] of [uuid4().hex]. *)
Definition _generate_session_id (u : string) : string :=
  upper (str_prefix 6 u).

(** [u1] and [u2] are the values of the first and of the second call of
    [uuid4().hex], when they happen; [now] is the clock. *)
Definition create_session (u1 u2 : string) (now : Z)
    (payload : SessionCreateRequest.t) (sessions : store)
    : Result (store * SessionState.t) :=
  let session_id :=
    strip (match SessionCreateRequest.session_id payload with
           | Some d => if str_truthy d then d else _generate_session_id u1
           | None => _generate_session_id u1
           end) in
  let session_id :=
    if negb (str_truthy session_id) then _generate_session_id u2
    else session_id in
  let normalized := upper session_id in
  match sessions !! normalized with
  | Some _ => Raise session_exists
  | None =>
      let session :=
        SessionState.init normalized (SessionCreateRequest.name payload) now in
      Ok (<[normalized := session]> sessions, session)
  end.

Definition require_session (session_id : string) (sessions : store)
    : Result SessionState.t :=
  let normalized := upper session_id in
  match sessions !! normalized with
  | None => Raise session_not_found
  | Some session => Ok session
  end.

(** [id_to_token = {token.id: token for token in tokens}] *)
Definition id_to_token (tokens : list Token.t) : Dict.t Token.t :=
  fold_left (fun d token => Dict.set d (Token.id token) token) tokens [].

(** One round of the loop shared by [_sync_token_order] and
    [set_token_order]; the state is [(id_to_token, ordered, seen)]. *)
Definition order_step (st : Dict.t Token.t * list Token.t * list string)
    (token_id : string) : Dict.t Token.t * list Token.t * list string :=
  let '(d, ordered, seen) := st in
  match Dict.pop d token_id with
  | (None, d') => (d', ordered, seen)
  | (Some token, d') => (d', ordered ++ [token], seen ++ [token_id])
  end.

Definition reorder (tokens : list Token.t) (wanted : list string)
    : list Token.t * list string :=
  let '(d, ordered, seen) :=
    fold_left order_step wanted (id_to_token tokens, [], []) in
  let remaining := Dict.values d in
  (ordered ++ remaining, seen ++ List.map Token.id remaining).

Definition _sync_token_order (session : SessionState.t) : SessionState.t :=
  match SessionState.tokens session with
  | [] => SessionState.set_token_order [] session
  | _ =>
      let '(tokens, order) :=
        reorder (SessionState.tokens session)
                (SessionState.token_order session) in
      SessionState.set_token_order order
        (SessionState.set_tokens tokens session)
  end.

(** The mutator returns the mutated session and what it stored in its
    box; when it raises, nothing is stored. *)
Definition mutate_session {A} (now : Z) (session_id : string)
    (mutator : SessionState.t -> Result (SessionState.t * A))
    (sessions : store) : Result (store * SessionState.t * A) :=
  let normalized := upper session_id in
  match sessions !! normalized with
  | None => Raise session_not_found
  | Some session =>
      do r <- mutator session;
      let session := _sync_token_order (fst r) in
      let session := SessionState.set_updated_at now session in
      Ok (<[normalized := session]> sessions, session, snd r)
  end.

Definition set_image (url : string) (session : SessionState.t)
    : Result (SessionState.t * unit) :=
  Ok (SessionState.set_map
        (MapState.set_image_url (Some url) (SessionState.map session))
        session, tt).

Definition set_map_url (now : Z) (session_id : string)
    (payload : MapUrlRequest.t) (sessions : store) :=
  mutate_session now session_id (set_image (MapUrlRequest.url payload))
    sessions.

Definition set_map_image (now : Z) (session_id : string) (url : string)
    (sessions : store) :=
  mutate_session now session_id (set_image url) sessions.

Definition set_warp (now : Z) (session_id : string) (warp : WarpConfig.t)
    (sessions : store) :=
  mutate_session now session_id
    (fun session =>
       Ok (SessionState.set_map
             (MapState.set_warp warp (SessionState.map session)) session, tt))
    sessions.

Definition clamp_center (half_width c : float) : float :=
  PyFloat.max half_width
    (PyFloat.min (PyFloat.sub PyFloat.f1_0 half_width)
       (_clamp_or_default (Some c) PyFloat.f0_5)).

(** The view that [set_map_view] stores. *)
Definition normalize_view (view : MapView.t) : Result MapView.t :=
  let center := MapView.center view in
  let zoom := PyFloat.max PyFloat.f0_2 (PyFloat.min PyFloat.f8_0 (MapView.zoom view)) in
  do rotation <- PyFloat.rem (MapView.rotation view) PyFloat.f360;
  do half_width <- PyFloat.truediv PyFloat.f0_5 zoom;
  Ok (MapView.mk
        (WarpPoint.mk (clamp_center half_width (WarpPoint.x center))
                      (clamp_center half_width (WarpPoint.y center)))
        zoom rotation).

Definition set_map_view (now : Z) (session_id : string) (view : MapView.t)
    (sessions : store) :=
  mutate_session now session_id
    (fun session =>
       do v <- normalize_view view;
       Ok (SessionState.set_map
             (MapState.set_view v (SessionState.map session)) session, tt))
    sessions.

(** [Token(id=uuid4().hex, ...)] for the value [u] of [uuid4().hex]. *)
Definition new_token (u : string) (payload : TokenCreateRequest.t) : Token.t :=
  Token.mk u
    (TokenCreateRequest.name payload)
    (TokenCreateRequest.kind payload)
    (TokenCreateRequest.color payload)
    (_clamp_or_default (Some (TokenCreateRequest.x payload)) PyFloat.f0_5)
    (_clamp_or_default (Some (TokenCreateRequest.y payload)) PyFloat.f0_5)
    (TokenCreateRequest.visible payload)
    (TokenCreateRequest.notes payload)
    (TokenCreateRequest.stats payload).

Definition add_token (u : string) (now : Z) (session_id : string)
    (payload : TokenCreateRequest.t) (sessions : store)
    : Result (store * SessionState.t * Token.t) :=
  mutate_session now session_id
    (fun session =>
       let token := new_token u payload in
       Ok (SessionState.set_token_order
             (SessionState.token_order session ++ [Token.id token])
             (SessionState.set_tokens
                (SessionState.tokens session ++ [token]) session),
           token))
    sessions.

(** The three lines that merge the stats of a partial update into the
    stored ones. *)
Definition merge_stats (old upd : TokenStats.t) : Result TokenStats.t :=
  let merged := TokenStats.model_dump old in
  let merged :=
    Dict.update merged
      (List.filter (fun kv => is_not_None (snd kv))
         (TokenStats.model_dump_exclude_unset upd)) in
  TokenStats.init merged.

Definition or_keep {A} (o : option A) (a : A) : A :=
  match o with
  | Some v => v
  | None => a
  end.

(** The body of [if token.id == token_id:] in [update_token]. *)
Definition update_token_fields (payload : TokenUpdateRequest.t)
    (token : Token.t) : Result Token.t :=
  let name := or_keep (TokenUpdateRequest.name payload) (Token.name token) in
  let kind := or_keep (TokenUpdateRequest.kind payload) (Token.kind token) in
  let color := or_keep (TokenUpdateRequest.color payload) (Token.color token) in
  let x :=
    match TokenUpdateRequest.x payload with
    | Some _ => _clamp_or_default (TokenUpdateRequest.x payload) (Token.x token)
    | None => Token.x token
    end in
  let y :=
    match TokenUpdateRequest.y payload with
    | Some _ => _clamp_or_default (TokenUpdateRequest.y payload) (Token.y token)
    | None => Token.y token
    end in
  let visible :=
    or_keep (TokenUpdateRequest.visible payload) (Token.visible token) in
  let notes :=
    match TokenUpdateRequest.notes payload with
    | Some n => Some n
    | None => Token.notes token
    end in
  do stats <-
    match TokenUpdateRequest.stats payload with
    | Some upd => merge_stats (Token.stats token) upd
    | None => Ok (Token.stats token)
    end;
  Ok (Token.mk (Token.id token) name kind color x y visible notes stats).

(** The loop of [update_token]: the first token with the id is updated
    and stored in the box. *)
Fixpoint update_first_token (token_id : string)
    (payload : TokenUpdateRequest.t) (tokens : list Token.t)
    : Result (list Token.t * Token.t) :=
  match tokens with
  | [] => Raise token_not_found
  | token :: rest =>
      if String.eqb (Token.id token) token_id then
        do token' <- update_token_fields payload token;
        Ok (token' :: rest, token')
      else
        do r <- update_first_token token_id payload rest;
        Ok (token :: fst r, snd r)
  end.

Definition update_token (now : Z) (session_id token_id : string)
    (payload : TokenUpdateRequest.t) (sessions : store)
    : Result (store * SessionState.t * Token.t) :=
  mutate_session now session_id
    (fun session =>
       do r <- update_first_token token_id payload (SessionState.tokens session);
       Ok (SessionState.set_tokens (fst r) session, snd r))
    sessions.

Definition delete_token_mutator (token_id : string)
    (session : SessionState.t) : Result (SessionState.t * unit) :=
  let tokens :=
    List.filter (fun token => negb (String.eqb (Token.id token) token_id))
      (SessionState.tokens session) in
  let order :=
    List.filter (fun tid => negb (String.eqb tid token_id))
      (SessionState.token_order session) in
  Ok (SessionState.set_token_order order
        (SessionState.set_tokens tokens session), tt).

Definition delete_token (now : Z) (session_id token_id : string)
    (sessions : store) :=
  mutate_session now session_id (delete_token_mutator token_id) sessions.

Definition set_token_order_mutator (payload : TokenOrderUpdateRequest.t)
    (session : SessionState.t) : Result (SessionState.t * unit) :=
  let desired := TokenOrderUpdateRequest.order payload in
  let '(tokens, order) := reorder (SessionState.tokens session) desired in
  Ok (SessionState.set_token_order order
        (SessionState.set_tokens tokens session), tt).

Definition set_token_order (now : Z) (session_id : string)
    (payload : TokenOrderUpdateRequest.t) (sessions : store) :=
  mutate_session now session_id (set_token_order_mutator payload) sessions.

Definition new_preset (u : string) (payload : PresetCreateRequest.t)
    : TokenPreset.t :=
  TokenPreset.mk u
    (PresetCreateRequest.name payload)
    (PresetCreateRequest.kind payload)
    (PresetCreateRequest.color payload)
    (PresetCreateRequest.stats payload)
    (PresetCreateRequest.notes payload).

Definition add_preset (u : string) (now : Z) (session_id : string)
    (payload : PresetCreateRequest.t) (sessions : store)
    : Result (store * SessionState.t * TokenPreset.t) :=
  mutate_session now session_id
    (fun session =>
       let preset := new_preset u payload in
       Ok (SessionState.set_presets
             (SessionState.presets session ++ [preset]) session, preset))
    sessions.

Definition update_preset_fields (payload : PresetUpdateRequest.t)
    (preset : TokenPreset.t) : Result TokenPreset.t :=
  let name := or_keep (PresetUpdateRequest.name payload) (TokenPreset.name preset) in
  let kind := or_keep (PresetUpdateRequest.kind payload) (TokenPreset.kind preset) in
  let color := or_keep (PresetUpdateRequest.color payload) (TokenPreset.color preset) in
  let notes :=
    match PresetUpdateRequest.notes payload with
    | Some n => Some n
    | None => TokenPreset.notes preset
    end in
  do stats <-
    match PresetUpdateRequest.stats payload with
    | Some upd => merge_stats (TokenPreset.stats preset) upd
    | None => Ok (TokenPreset.stats preset)
    end;
  Ok (TokenPreset.mk (TokenPreset.id preset) name kind color stats notes).

Fixpoint update_first_preset (preset_id : string)
    (payload : PresetUpdateRequest.t) (presets : list TokenPreset.t)
    : Result (list TokenPreset.t * TokenPreset.t) :=
  match presets with
  | [] => Raise preset_not_found
  | preset :: rest =>
      if String.eqb (TokenPreset.id preset) preset_id then
        do preset' <- update_preset_fields payload preset;
        Ok (preset' :: rest, preset')
      else
        do r <- update_first_preset preset_id payload rest;
        Ok (preset :: fst r, snd r)
  end.

Definition update_preset (now : Z) (session_id preset_id : string)
    (payload : PresetUpdateRequest.t) (sessions : store)
    : Result (store * SessionState.t * TokenPreset.t) :=
  mutate_session now session_id
    (fun session =>
       do r <- update_first_preset preset_id payload (SessionState.presets session);
       Ok (SessionState.set_presets (fst r) session, snd r))
    sessions.

Definition delete_preset_mutator (preset_id : string)
    (session : SessionState.t) : Result (SessionState.t * unit) :=
  Ok (SessionState.set_presets
        (List.filter
           (fun preset => negb (String.eqb (TokenPreset.id preset) preset_id))
           (SessionState.presets session))
        session, tt).

Definition delete_preset (now : Z) (session_id preset_id : string)
    (sessions : store) :=
  mutate_session now session_id (delete_preset_mutator preset_id) sessions.

End SessionManager.

(** ** The subscription broadcaster ([main.py]) *)

Module WebSocketManager.

(** A [WebSocket] object, known by its identity. *)
Definition WebSocket := nat.

(** The attribute [_connections]. *)
Abbreviation registry := (gmap string (gset WebSocket)).

(** [{"type": "state", "payload": jsonable_encoder(state)}] *)
Inductive Message := StateMessage (payload : SessionState.t).

(** Truth value of a [set]: the empty set is false. *)
Definition set_truthy (s : gset WebSocket) : bool :=
  negb (bool_decide (s = ∅)).

(** [connect], once [websocket.accept()] has returned. *)
Definition connect (session_id : string) (websocket : WebSocket)
    (connections : registry) : registry :=
  <[session_id := default ∅ (connections !! session_id) ∪ {[websocket]}]>
    connections.

(** [conns] is the set object held by the registry: [conns.remove]
    changes the registry's entry, and the second test reads the set as
    the removal left it. *)
Definition disconnect (session_id : string) (websocket : WebSocket)
    (connections : registry) : registry :=
  match connections !! session_id with
  | None => connections
  | Some conns =>
      let conns :=
        if set_truthy conns && bool_decide (websocket ∈ conns)
        then conns ∖ {[websocket]} else conns in
      let connections := <[session_id := conns]> connections in
      if set_truthy conns && (size conns =? 0)%nat
      then delete session_id connections
      else connections
  end.

Section Broadcast.

(** What [connection.send_json(payload)] does: [None] when the message
    is sent, [Some e] when the call raises [e]. *)
Variable send_json : WebSocket -> Message -> option Exn.

(** The [for connection in targets] loop: the exception that left the
    loop if one did, the list [to_drop], and the connections the
    payload was sent to. *)
Fixpoint send_loop (payload : Message) (targets : list WebSocket)
    : option Exn * list WebSocket * list WebSocket :=
  match targets with
  | [] => (None, [], [])
  | connection :: rest =>
      match send_json connection payload with
      | None =>
          let '(e, to_drop, sent) := send_loop payload rest in
          (e, to_drop, connection :: sent)
      | Some RuntimeError =>
          let '(e, to_drop, sent) := send_loop payload rest in
          (e, connection :: to_drop, sent)
      | Some e => (Some e, [], [])
      end
  end.

Record Outcome := mk_outcome {
  result : Result unit;
  connections_after : registry;
  sent_to : list WebSocket }.

Definition broadcast_state (session_id : string) (state : SessionState.t)
    (connections : registry) : Outcome :=
  let targets := elements (default ∅ (connections !! session_id)) in
  let payload := StateMessage state in
  match send_loop payload targets with
  | (Some e, _, sent) => mk_outcome (Raise e) connections sent
  | (None, to_drop, sent) =>
      mk_outcome (Ok tt)
        (fold_left (fun c conn => disconnect session_id conn c) to_drop
           connections)
        sent
  end.

End Broadcast.

End WebSocketManager.

(** ** The request handlers ([main.py]) *)

Module WarpUpdateRequest.
Record t := mk { warp : WarpConfig.t }.
End WarpUpdateRequest.

Module Handlers.

(** The module's objects [sessions] and [ws_manager]. *)
Record App := mk_app {
  sessions : SessionManager.store;
  connections : WebSocketManager.registry }.

(** What serving a request leaves, when no other request is served in
    between: what the handler returned or raised, the two objects, and the
    connections that the snapshot was sent to. *)
Record Response := mk_response {
  returned : Result SessionState.t;
  app_after : App;
  reached : list WebSocketManager.WebSocket }.

Definition raised (e : Exn) (app : App) : Response := mk_response (Raise e) app [].

Definition _normalize_session_id (session_id : string) : string :=
  upper session_id.

Definition create_session (u1 u2 : string) (now : Z)
    (payload : SessionCreateRequest.t) (app : App) : Response :=
  match SessionManager.create_session u1 u2 now payload (sessions app) with
  | Raise e => raised e app
  | Ok (sessions', session) =>
      mk_response (Ok session) (mk_app sessions' (connections app)) []
  end.

Definition read_session (session_id : string) (app : App) : Response :=
  mk_response (SessionManager.require_session session_id (sessions app)) app [].

Section Served.

(** What [send_json] and [accept] do on each connection: [None] when the
    call returns, [Some e] when it raises [e]. *)
Variable send_json :
  WebSocketManager.WebSocket -> WebSocketManager.Message -> option Exn.
Variable accept : WebSocketManager.WebSocket -> option Exn.

Definition _broadcast (session_id : string) (state : SessionState.t)
    (app : App) : Response :=
  let out :=
    WebSocketManager.broadcast_state send_json
      (_normalize_session_id session_id) state (connections app) in
  mk_response
    (do _ <- WebSocketManager.result out; Ok state)
    (mk_app (sessions app) (WebSocketManager.connections_after out))
    (WebSocketManager.sent_to out).

Definition set_map_url (now : Z) (session_id : string)
    (payload : MapUrlRequest.t) (app : App) : Response :=
  let normalized := _normalize_session_id session_id in
  match SessionManager.set_map_url now normalized payload (sessions app) with
  | Raise e => raised e app
  | Ok (sessions', state, _) =>
      _broadcast normalized state (mk_app sessions' (connections app))
  end.

Definition update_warp (now : Z) (session_id : string)
    (payload : WarpUpdateRequest.t) (app : App) : Response :=
  let normalized := _normalize_session_id session_id in
  match SessionManager.set_warp now normalized
          (WarpUpdateRequest.warp payload) (sessions app) with
  | Raise e => raised e app
  | Ok (sessions', state, _) =>
      _broadcast normalized state (mk_app sessions' (connections app))
  end.

(** The three handlers on tokens drop what the store's method returns and
    read the session again before they broadcast it. *)
Definition read_and_broadcast (normalized : string)
    (sessions' : SessionManager.store) (app : App) : Response :=
  let app' := mk_app sessions' (connections app) in
  match SessionManager.require_session normalized sessions' with
  | Raise e => raised e app'
  | Ok state => _broadcast normalized state app'
  end.

Definition create_token (u : string) (now : Z) (session_id : string)
    (payload : TokenCreateRequest.t) (app : App) : Response :=
  let normalized := _normalize_session_id session_id in
  match SessionManager.add_token u now normalized payload (sessions app) with
  | Raise e => raised e app
  | Ok (sessions', _, _) => read_and_broadcast normalized sessions' app
  end.

Definition update_token (now : Z) (session_id token_id : string)
    (payload : TokenUpdateRequest.t) (app : App) : Response :=
  let normalized := _normalize_session_id session_id in
  match SessionManager.update_token now normalized token_id payload
          (sessions app) with
  | Raise e => raised e app
  | Ok (sessions', _, _) => read_and_broadcast normalized sessions' app
  end.

Definition delete_token (now : Z) (session_id token_id : string) (app : App)
    : Response :=
  let normalized := _normalize_session_id session_id in
  match SessionManager.delete_token now normalized token_id (sessions app) with
  | Raise e => raised e app
  | Ok (sessions', _, _) => read_and_broadcast normalized sessions' app
  end.

(** How [websocket_endpoint] stands when it reaches its receive loop, or
    leaves before it. *)
Inductive Opening :=
| Closed (code : Z)
| Listening (first : SessionState.t)
| Failed (e : Exn).

(** [websocket_endpoint] up to its receive loop: the session is looked up
    (any exception closes the socket with code 4404), the socket is
    accepted and registered under the session's id, and the session is
    sent to it. The two last steps are outside the handler's [try]. *)
Definition websocket_open (websocket : WebSocketManager.WebSocket)
    (session_id : string) (app : App) : Opening * App :=
  match SessionManager.require_session session_id (sessions app) with
  | Raise _ => (Closed 4404, app)
  | Ok session =>
      let normalized := SessionState.id session in
      match accept websocket with
      | Some e => (Failed e, app)
      | None =>
          let app' :=
            mk_app (sessions app)
              (WebSocketManager.connect normalized websocket
                 (connections app)) in
          match send_json websocket (WebSocketManager.StateMessage session) with
          | Some e => (Failed e, app')
          | None => (Listening session, app')
          end
      end
  end.

End Served.

End Handlers.

(** * Vocabulary of the specification *)

(** The store once a call has returned or raised: a call that raises has
    stored nothing. *)
Definition store_after {A} (r : Result (SessionManager.store * A))
    (sessions : SessionManager.store) : SessionManager.store :=
  match r with
  | Ok (sessions', _) => sessions'
  | Raise _ => sessions
  end.

(** A desired id that is empty or made of whitespace only. *)
Definition blank (s : string) : bool :=
  forallb is_space (list_ascii_of_string s).

Definition is_hex_digit (c : ascii) : bool :=
  let n := nat_of_ascii c in
  ((48 <=? n)%nat && (n <=? 57)%nat) || ((97 <=? n)%nat && (n <=? 102)%nat).

(** The values of [uuid4().hex]: 32 lowercase hexadecimal digits. *)
Definition is_uuid_hex (u : string) : bool :=
  (String.length u =? 32)%nat && forallb is_hex_digit (list_ascii_of_string u).

Definition spaceless (s : string) : bool :=
  forallb (λ c, negb (is_space c)) (list_ascii_of_string s).

(** A string that [upper] leaves as it is. *)
Definition is_upper (s : string) : Prop := upper s = s.

Section SendVocabulary.
Import WebSocketManager.
Variable send_json : WebSocket -> Message -> option Exn.

Definition send_ok (payload : Message) (c : WebSocket) : bool :=
  match send_json c payload with
  | None => true
  | Some _ => false
  end.

(** Every failing send of the list fails with a [RuntimeError]. *)
Definition only_runtime_errors (payload : Message) (l : list WebSocket) : Prop :=
  ∀ c e, c ∈ l → send_json c payload = Some e → e = RuntimeError.
End SendVocabulary.

(** The send of connection [1] raises [WebSocketDisconnect]; every other
    send succeeds. *)
Definition send_json_disconnected (c : WebSocketManager.WebSocket)
    (_ : WebSocketManager.Message) : option Exn :=
  if Nat.eqb c 1 then Some WebSocketDisconnect else None.

(** [lo <= v <= hi] on floats. *)
Definition in_range (lo hi v : float) : bool :=
  PyFloat.le lo v && PyFloat.le v hi.

(** The position of a float that is not a NaN in the order of the
    comparisons: the sign class, then the exponent, then the mantissa. *)
Definition order_key (a : float) : Z * Z * Z :=
  match a with
  | S754_nan => (0, 0, 0)
  | S754_zero _ => (0, 0, 0)
  | S754_infinity s => (if s then -2 else 2, 0, 0)
  | S754_finite s m e => if s then (-1, - e, - Z.pos m) else (1, e, Z.pos m)
  end.

Definition key_lt (a b : Z * Z * Z) : Prop :=
  let '(a1, a2, a3) := a in
  let '(b1, b2, b3) := b in
  a1 < b1 ∨ (a1 = b1 ∧ (a2 < b2 ∨ (a2 = b2 ∧ a3 < b3))).

Definition is_nan (a : float) : bool :=
  match a with
  | S754_nan => true
  | _ => false
  end.

(** The specification's bound on the centre of the stored view [v]: both
    coordinates lie between [0.5 / zoom] and [1 - 0.5 / zoom]. *)
Definition center_within (v : MapView.t) : Prop :=
  ∃ half_width,
    PyFloat.truediv PyFloat.f0_5 (MapView.zoom v) = Ok half_width
    ∧ in_range half_width (PyFloat.sub PyFloat.f1_0 half_width)
        (WarpPoint.x (MapView.center v)) = true
    ∧ in_range half_width (PyFloat.sub PyFloat.f1_0 half_width)
        (WarpPoint.y (MapView.center v)) = true.

(** [-1e-20] *)
Definition tiny_negative : float := S754_finite true 6646139978924579 (-119).

(** What [mutate_session] stores once the mutator has returned [s]. *)
Definition committed (now : Z) (s : SessionState.t) : SessionState.t :=
  SessionState.set_updated_at now (SessionManager._sync_token_order s).

(** The store with one new session ["X"], and the views submitted to it. *)
Definition one_session : SessionManager.store :=
  {[ "X" := SessionState.init "X" None 0 ]}.

Definition view_zoomed_out : MapView.t :=
  MapView.mk (WarpPoint.mk PyFloat.f0_5 PyFloat.f0_5) PyFloat.f0_5 PyFloat.f0_0.

(** [0.25], [0.75] and [2.0]; a view at zoom [2.0] whose centre is near
    two edges of the map. *)
Definition f0_25 : float := S754_finite false 4503599627370496 (-54).
Definition f0_75 : float := S754_finite false 6755399441055744 (-53).
Definition f2_0 : float := S754_finite false 4503599627370496 (-51).

Definition view_zoomed_in : MapView.t :=
  MapView.mk (WarpPoint.mk PyFloat.f0_95 PyFloat.f0_05) f2_0 PyFloat.f0_0.

Definition view_turned_back : MapView.t :=
  MapView.mk (WarpPoint.mk PyFloat.f0_5 PyFloat.f0_5) PyFloat.f1_0 tiny_negative.

(** The merge of the stats [upd] of a partial update into the stored
    stats [old], field by field. In [merge_given] a field is overwritten
    when the update gives it, whatever the value; in [merge_given_not_null]
    when the update gives it and the value is not null. *)
Definition take_given {A} (given : bool) (new old : A) : A :=
  if given then new else old.

Definition take_not_null {A} (given : bool) (new old : option A) : option A :=
  if given then match new with Some v => Some v | None => old end else old.

Definition merge_given (old upd : TokenStats.t) : TokenStats.t :=
  TokenStats.mk
    (take_given (TokenStats.is_set upd "hp") (TokenStats.hp upd) (TokenStats.hp old))
    (take_given (TokenStats.is_set upd "max_hp")
       (TokenStats.max_hp upd) (TokenStats.max_hp old))
    (take_given (TokenStats.is_set upd "initiative")
       (TokenStats.initiative upd) (TokenStats.initiative old))
    (take_given (TokenStats.is_set upd "spell_slots")
       (TokenStats.spell_slots upd) (TokenStats.spell_slots old))
    TokenStats.all_fields.

Definition merge_given_not_null (old upd : TokenStats.t) : TokenStats.t :=
  TokenStats.mk
    (take_not_null (TokenStats.is_set upd "hp")
       (TokenStats.hp upd) (TokenStats.hp old))
    (take_not_null (TokenStats.is_set upd "max_hp")
       (TokenStats.max_hp upd) (TokenStats.max_hp old))
    (take_not_null (TokenStats.is_set upd "initiative")
       (TokenStats.initiative upd) (TokenStats.initiative old))
    (take_given (TokenStats.is_set upd "spell_slots")
       (TokenStats.spell_slots upd) (TokenStats.spell_slots old))
    TokenStats.all_fields.

(** Stats [{hp: 10, max_hp: 20}], and the updates [{hp: 5}] and
    [{hp: null}]. *)
Definition stats_10_20 : TokenStats.t :=
  TokenStats.mk (Some 10) (Some 20) None [] ["hp"; "max_hp"].
Definition stats_hp_5 : TokenStats.t :=
  TokenStats.mk (Some 5) None None [] ["hp"].
Definition stats_hp_null : TokenStats.t :=
  TokenStats.mk None None None [] ["hp"].

(** The first token of the list with the id. *)
Definition find_token (token_id : string) (tokens : list Token.t)
    : option Token.t :=
  List.find (λ token, String.eqb (Token.id token) token_id) tokens.

(** A session with the single token ["a"], whose stats are
    [{hp: 10, max_hp: 20}]. *)
Definition token_a : Token.t :=
  Token.mk "a" "A" pc "#ffffff" PyFloat.f0_5 PyFloat.f0_5 true None stats_10_20.

Definition session_with_a : SessionState.t :=
  SessionState.mk "X" None MapState.default [token_a] ["a"] [] 0.

Definition update_stats (upd : TokenStats.t) : TokenUpdateRequest.t :=
  TokenUpdateRequest.mk None None None None None None None (Some upd).

(** The ids of a list of tokens, in the order of the list. *)
Definition token_ids (tokens : list Token.t) : list string :=
  List.map Token.id tokens.

(** The order list and the token collection of a session are in bijection:
    neither repeats an id, and they hold the same ids. *)
Definition in_bijection (s : SessionState.t) : Prop :=
  List.NoDup (SessionState.token_order s)
  ∧ List.NoDup (token_ids (SessionState.tokens s))
  ∧ ∀ i, In i (SessionState.token_order s)
         ↔ In i (token_ids (SessionState.tokens s)).

(** The bijection, position by position. *)
Definition order_synced (s : SessionState.t) : Prop :=
  SessionState.token_order s = token_ids (SessionState.tokens s)
  ∧ List.NoDup (SessionState.token_order s).

(** The dictionary that holds the tokens of a list under their ids, when no
    two of them share an id. *)
Definition dict_of (tokens : list Token.t) : Dict.t Token.t :=
  List.map (λ token, (Token.id token, token)) tokens.

Definition without_id (token_id : string) (tokens : list Token.t)
    : list Token.t :=
  List.filter (λ token, negb (String.eqb (Token.id token) token_id)) tokens.

(** The tokens that a list of wanted ids takes out of a list of tokens, in
    the order of the wanted ids, and the tokens left. *)
Fixpoint pick (tokens : list Token.t) (wanted : list string)
    : list Token.t * list Token.t :=
  match wanted with
  | [] => ([], tokens)
  | token_id :: rest =>
      match find_token token_id tokens with
      | None => pick tokens rest
      | Some token =>
          let '(picked, others) := pick (without_id token_id tokens) rest in
          (token :: picked, others)
      end
  end.

Definition mem (i : string) (l : list string) : bool :=
  existsb (String.eqb i) l.

(** The first occurrence of every id of [l] that is not in [seen]. *)
Fixpoint first_occurrences_from (seen l : list string) : list string :=
  match l with
  | [] => []
  | i :: r =>
      if mem i seen then first_occurrences_from seen r
      else i :: first_occurrences_from (i :: seen) r
  end.

Definition first_occurrences (l : list string) : list string :=
  first_occurrences_from [] l.

(** The order that the specification gives for [set_token_order]: the
    desired ids that are ids of current tokens, in the desired sequence,
    then the current ids that are not desired, in their current order. *)
Definition expected_order (current desired : list string) : list string :=
  first_occurrences (List.filter (λ i, mem i current) desired)
  ++ List.filter (λ i, negb (mem i desired)) current.

(** The mutate-family operations, each with its arguments and with the
    value of [uuid4().hex] when it draws one. *)
Inductive Mutation :=
| AddToken (u : string) (payload : TokenCreateRequest.t)
| UpdateToken (token_id : string) (payload : TokenUpdateRequest.t)
| DeleteToken (token_id : string)
| SetTokenOrder (payload : TokenOrderUpdateRequest.t)
| SetWarp (warp : WarpConfig.t)
| SetMapView (view : MapView.t)
| SetMapUrl (payload : MapUrlRequest.t)
| SetMapImage (url : string)
| AddPreset (u : string) (payload : PresetCreateRequest.t)
| UpdatePreset (preset_id : string) (payload : PresetUpdateRequest.t)
| DeletePreset (preset_id : string).

(** The store and the session that an operation leaves, without the value
    it returns. *)
Definition stored {A}
    (r : Result (SessionManager.store * SessionState.t * A))
    : Result (SessionManager.store * SessionState.t) :=
  do x <- r; Ok (fst x).

Definition run (m : Mutation) (now : Z) (session_id : string)
    (sessions : SessionManager.store)
    : Result (SessionManager.store * SessionState.t) :=
  match m with
  | AddToken u payload =>
      stored (SessionManager.add_token u now session_id payload sessions)
  | UpdateToken token_id payload =>
      stored (SessionManager.update_token now session_id token_id payload sessions)
  | DeleteToken token_id =>
      stored (SessionManager.delete_token now session_id token_id sessions)
  | SetTokenOrder payload =>
      stored (SessionManager.set_token_order now session_id payload sessions)
  | SetWarp warp =>
      stored (SessionManager.set_warp now session_id warp sessions)
  | SetMapView view =>
      stored (SessionManager.set_map_view now session_id view sessions)
  | SetMapUrl payload =>
      stored (SessionManager.set_map_url now session_id payload sessions)
  | SetMapImage url =>
      stored (SessionManager.set_map_image now session_id url sessions)
  | AddPreset u payload =>
      stored (SessionManager.add_preset u now session_id payload sessions)
  | UpdatePreset preset_id payload =>
      stored (SessionManager.update_preset now session_id preset_id payload sessions)
  | DeletePreset preset_id =>
      stored (SessionManager.delete_preset now session_id preset_id sessions)
  end.

(** A request for a token, and a store whose session ["X"] has an order
    list that names a token twice and a token that is not there. *)
Definition token_request : TokenCreateRequest.t :=
  TokenCreateRequest.mk "B" npc "#000000" PyFloat.f8_0 tiny_negative true None
    TokenStats.default.

Definition session_out_of_sync : SessionState.t :=
  SessionState.mk "X" None MapState.default [token_a] ["a"; "zz"; "a"] [] 0.

(** Three tokens [a], [b], [c] in this order, and the request to order
    them [b], [a]. *)
Definition token_named (i : string) : Token.t :=
  Token.mk i i pc "#ffffff" PyFloat.f0_5 PyFloat.f0_5 true None TokenStats.default.

Definition session_abc : SessionState.t :=
  SessionState.mk "X" None MapState.default
    [token_named "a"; token_named "b"; token_named "c"] ["a"; "b"; "c"] [] 0.

Definition order_b_a : TokenOrderUpdateRequest.t :=
  TokenOrderUpdateRequest.mk ["b"; "a"].

(** The coordinates of every token of the session lie in [[0, 1]]. *)
Definition tokens_in_unit (s : SessionState.t) : Prop :=
  ∀ token, In token (SessionState.tokens s) →
    in_range PyFloat.f0_0 PyFloat.f1_0 (Token.x token) = true
    ∧ in_range PyFloat.f0_0 PyFloat.f1_0 (Token.y token) = true.

(** The invariants of the store: in every session the order list is the
    list of the tokens' ids, and the tokens lie in the unit square. *)
Definition store_invariant (sessions : SessionManager.store) : Prop :=
  ∀ k s, sessions !! k = Some s → order_synced s ∧ tokens_in_unit s.

(** A request to the store, create or mutate, with the clock's value when
    it is served. The store serves requests one at a time, under its lock;
    a request that raises leaves the store as it was. *)
Inductive Command :=
| Create (u1 u2 : string) (payload : SessionCreateRequest.t)
| Mutate (session_id : string) (m : Mutation).

Definition serve (sessions : SessionManager.store) (c : Z * Command)
    : SessionManager.store :=
  match c with
  | (now, Create u1 u2 payload) =>
      store_after (SessionManager.create_session u1 u2 now payload sessions)
        sessions
  | (now, Mutate session_id m) =>
      store_after (run m now session_id sessions) sessions
  end.

(** The store after a sequence of requests, from the empty store of
    [SessionManager.__init__]. *)
Definition serve_all (cs : list (Z * Command)) : SessionManager.store :=
  fold_left serve cs ∅.

(** Every session is stored under its own id, which is in upper case. *)
Definition keys_canonical (sessions : SessionManager.store) : Prop :=
  ∀ k s, sessions !! k = Some s → SessionState.id s = k ∧ is_upper k.

(** Two requests: create the session ["abc"], then add a token to it. *)
Definition two_requests : list (Z * Command) :=
  [ (0, Create "" "" (SessionCreateRequest.mk None (Some "abc")));
    (1, Mutate "abc" (AddToken "t1" token_request)) ].

(** The first preset of the list with the id. *)
Definition find_preset (preset_id : string) (presets : list TokenPreset.t)
    : option TokenPreset.t :=
  List.find (λ preset, String.eqb (TokenPreset.id preset) preset_id) presets.

(** A request for a preset, and an update of a preset's stats. *)
Definition preset_request : PresetCreateRequest.t :=
  PresetCreateRequest.mk "Goblin" npc "#00ff00" stats_10_20 None.

Definition preset_stats (upd : TokenStats.t) : PresetUpdateRequest.t :=
  PresetUpdateRequest.mk None None None (Some upd) None.

Definition preset_ids (presets : list TokenPreset.t) : list string :=
  List.map TokenPreset.id presets.

(** A session that holds the preset ["p"] with stats
    [{hp: 10, max_hp: 20}]. *)
Definition session_with_preset : SessionState.t :=
  SessionState.mk "X" None MapState.default [] []
    [TokenPreset.mk "p" "Goblin" npc "#00ff00" stats_10_20 None] 0.

(** A view whose zoom is a NaN, and a warp of one corner outside the
    map. *)
Definition view_nan_zoom : MapView.t :=
  MapView.mk (WarpPoint.mk PyFloat.f0_5 PyFloat.f0_5) S754_nan PyFloat.f0_0.

Definition warp_one_corner : WarpConfig.t :=
  WarpConfig.mk [WarpPoint.mk f2_0 tiny_negative].

(** The sends of connection [2] raise [RuntimeError]; every other send
    succeeds. *)
Definition send_json_closed (c : WebSocketManager.WebSocket)
    (_ : WebSocketManager.Message) : option Exn :=
  if Nat.eqb c 2 then Some RuntimeError else None.

(** The subscribers of a session: the empty set when the registry has no
    entry for it. *)
Definition subscribers (session_id : string)
    (connections : WebSocketManager.registry)
    : gset WebSocketManager.WebSocket :=
  default ∅ (connections !! session_id).

(** Sends and accepts that never fail. *)
Definition send_json_ok (_ : WebSocketManager.WebSocket)
    (_ : WebSocketManager.Message) : option Exn := None.

Definition accept_ok (_ : WebSocketManager.WebSocket) : option Exn := None.

(** The application with the session of three tokens and no connection,
    with connection [1] subscribed to it, and with the empty store. *)
Definition app_abc : Handlers.App :=
  Handlers.mk_app {[ "X" := session_abc ]} ∅.

Definition app_abc_dead : Handlers.App :=
  Handlers.mk_app {[ "X" := session_abc ]} {[ "X" := {[ 1%nat ]} ]}.

Definition app_empty : Handlers.App := Handlers.mk_app ∅ ∅.

(** Two values of [uuid4().hex], and stores that already hold the
    identifiers generated from them. *)
Definition uuid_0123 : string := "0123456789abcdef0123456789abcdef".
Definition uuid_fedc : string := "fedcba9876543210fedcba9876543210".

Definition store_fedcba : SessionManager.store :=
  {[ "FEDCBA" := SessionState.init "FEDCBA" None 0 ]}.

Definition store_0123 : SessionManager.store :=
  {[ "012345" := SessionState.init "012345" None 0 ]}.

(** * Properties *)

(** ** The broadcaster *)

Section Detach.
Import WebSocketManager.

Lemma set_truthy_size (s : gset WebSocket) :
  set_truthy s && (size s =? 0)%nat = false.
Proof.
  unfold set_truthy. case_bool_decide as He; [by subst|].
  destruct (Nat.eqb_spec (size s) 0) as [Hz|]; [|done].
  apply size_empty_iff, leibniz_equiv in Hz. done.
Qed.

(** The entry of a session is never removed: the test that guards the
    [pop] holds for no set. *)
Lemma disconnect_lookup sid ws (c : registry) :
  disconnect sid ws c !! sid = (λ conns, conns ∖ {[ws]}) <$> c !! sid.
Proof.
  unfold disconnect. destruct (c !! sid) as [conns|] eqn:E; simpl; [|done].
  rewrite set_truthy_size, lookup_insert_eq. f_equal.
  unfold set_truthy. case_bool_decide; simpl.
  - subst. apply set_eq. intros w.
    rewrite elem_of_difference, elem_of_empty. tauto.
  - case_bool_decide as Hin; [done|].
    symmetry. apply difference_disjoint_L. by apply disjoint_singleton_r.
Qed.

Lemma disconnect_lookup_ne sid sid' ws (c : registry) :
  sid ≠ sid' → disconnect sid ws c !! sid' = c !! sid'.
Proof.
  intros Hne. unfold disconnect. destruct (c !! sid) as [conns|]; [|done].
  rewrite set_truthy_size. by rewrite lookup_insert_ne.
Qed.

Lemma disconnect_dom sid ws (c : registry) : dom (disconnect sid ws c) = dom c.
Proof.
  apply set_eq. intros k. rewrite !elem_of_dom.
  destruct (decide (sid = k)) as [->|Hne].
  - by rewrite disconnect_lookup, fmap_is_Some.
  - by rewrite disconnect_lookup_ne.
Qed.
End Detach.

(** C9. Detaching the last subscriber of a session leaves the session's
    entry in the registry, bound to the empty set: the entry is not removed.
    The specification asks for its removal, and [disconnect] has the [pop]
    for it, behind a test that never holds. *)
Theorem disconnect_last_subscriber_keeps_entry :
  let connections : WebSocketManager.registry := {[ "X" := {[ 1%nat ]} ]} in
  let after := WebSocketManager.disconnect "X" 1%nat connections in
  after !! "X" = Some ∅ ∧ after ≠ ∅.
Proof.
  intros connections after.
  assert (H : after !! "X" = Some ∅).
  { unfold after, connections. rewrite disconnect_lookup, lookup_singleton_eq.
    simpl. by rewrite difference_diag_L. }
  split; [exact H|].
  intros E. rewrite E, lookup_empty in H. discriminate.
Qed.

Section Broadcast.
Import WebSocketManager.
Variable send_json : WebSocket -> Message -> option Exn.

Local Abbreviation send_ok := (send_ok send_json).
Local Abbreviation only_runtime_errors := (only_runtime_errors send_json).

Lemma send_loop_runtime payload targets :
  only_runtime_errors payload targets →
  send_loop send_json payload targets =
    (None, List.filter (λ c, negb (send_ok payload c)) targets,
     List.filter (send_ok payload) targets).
Proof.
  induction targets as [|c r IH]; intros H; simpl; [done|].
  rewrite IH by (intros c' e' Hin; apply H; by right).
  assert (Hok : send_ok payload c = bool_decide (send_json c payload = None)).
  { unfold send_ok. by destruct (send_json c payload). }
  rewrite Hok. destruct (send_json c payload) as [e|] eqn:E; simpl; [|done].
  assert (e = RuntimeError) as -> by (apply (H c); [left | done]). done.
Qed.

Lemma disconnect_all_lookup sid (l : list WebSocket) (c : registry) :
  fold_left (λ c conn, disconnect sid conn c) l c !! sid
  = (λ conns, conns ∖ list_to_set l) <$> c !! sid.
Proof.
  revert c. induction l as [|w l IH]; intros c; simpl.
  - destruct (c !! sid) as [conns|]; simpl; [|done].
    f_equal. symmetry. apply difference_disjoint_L, disjoint_empty_r.
  - rewrite IH, disconnect_lookup.
    destruct (c !! sid) as [conns|]; simpl; [|done].
    f_equal. apply set_eq. intros k.
    rewrite !elem_of_difference, elem_of_union. tauto.
Qed.

Lemma disconnect_all_lookup_ne sid sid' (l : list WebSocket) (c : registry) :
  sid ≠ sid' →
  fold_left (λ c conn, disconnect sid conn c) l c !! sid' = c !! sid'.
Proof.
  intros Hne. revert c. induction l as [|w l IH]; intros c; simpl; [done|].
  by rewrite IH, disconnect_lookup_ne.
Qed.

(** What [broadcast_state] does when no send fails otherwise than with a
    [RuntimeError]: it returns, the payload went to the subscribers whose
    send succeeded, and the others left the session's set. *)
Lemma broadcast_state_runtime_errors sid state (c : registry) conns :
  c !! sid = Some conns →
  only_runtime_errors (StateMessage state) (elements conns) →
  let out := broadcast_state send_json sid state c in
  result out = Ok tt
  ∧ (∀ w, w ∈ sent_to out ↔ w ∈ conns ∧ send_json w (StateMessage state) = None)
  ∧ NoDup (sent_to out)
  ∧ connections_after out !! sid
    = Some (filter (λ w, send_json w (StateMessage state) = None) conns).
Proof.
  intros Hc Hrt out. unfold out, broadcast_state. rewrite Hc. simpl.
  rewrite send_loop_runtime by done. simpl. split; [done|]. split; [|split].
  - intros w. rewrite list_elem_of_In, filter_In, <- list_elem_of_In,
      elem_of_elements. unfold send_ok.
    destruct (send_json w (StateMessage state)); intuition congruence.
  - apply NoDup_ListNoDup, List.NoDup_filter, NoDup_ListNoDup, NoDup_elements.
  - rewrite disconnect_all_lookup, Hc. simpl. f_equal. apply set_eq. intros w.
    rewrite elem_of_difference, elem_of_filter, elem_of_list_to_set,
      list_elem_of_In, filter_In, <- list_elem_of_In, elem_of_elements.
    unfold send_ok. destruct (send_json w (StateMessage state)); simpl;
      intuition congruence.
Qed.
End Broadcast.

(** C8. A send that fails with an exception other than [RuntimeError]
    leaves [broadcast_state] through its caller: the broadcast does not
    complete, and the dead connection stays registered. *)
Theorem broadcast_state_surfaces_disconnect :
  let connections : WebSocketManager.registry := {[ "X" := {[ 1%nat ]} ]} in
  let state := SessionState.init "X" None 0 in
  let out :=
    WebSocketManager.broadcast_state send_json_disconnected "X" state connections in
  WebSocketManager.result out = Raise WebSocketDisconnect
  ∧ WebSocketManager.connections_after out !! "X" = Some {[ 1%nat ]}.
Proof.
  intros connections state out. unfold out, WebSocketManager.broadcast_state.
  unfold connections at 1. rewrite lookup_singleton_eq. simpl.
  rewrite elements_singleton. simpl. split; [done|].
  unfold connections. apply lookup_singleton_eq.
Qed.

(** ** Session identifiers *)

Section Strings.

Lemma upper_char_idem c : upper_char (upper_char c) = upper_char c.
Proof. destruct c as [[] [] [] [] [] [] [] []]; reflexivity. Qed.

Lemma upper_idem s : upper (upper s) = upper s.
Proof. induction s as [|c r IH]; simpl; [done|]. by rewrite upper_char_idem, IH. Qed.

Lemma upper_empty s : upper s = "" ↔ s = "".
Proof. destruct s; simpl; split; intros H; by inversion H. Qed.

Lemma str_truthy_spec s : str_truthy s = true ↔ s ≠ "".
Proof. destruct s; simpl; split; intros H; congruence. Qed.

Lemma lstrip_blank s : blank s = true → lstrip s = "".
Proof.
  unfold blank. induction s as [|c r IH]; simpl; [done|].
  intros [Hc Hr]%andb_true_iff. rewrite Hc. by apply IH.
Qed.

Lemma strip_blank s : blank s = true → strip s = "".
Proof. intros H. unfold strip. by rewrite lstrip_blank. Qed.

(** Conversely, only blank strings are stripped to nothing. *)
Lemma rstrip_empty_blank s : rstrip s = "" → blank s = true.
Proof.
  unfold blank. induction s as [|c r IH]; simpl; [done|].
  destruct (rstrip r) eqn:E; [|done].
  destruct (is_space c); [|done]. intros _. by rewrite IH.
Qed.

Lemma lstrip_blank_inv s : blank (lstrip s) = true → blank s = true.
Proof.
  unfold blank. induction s as [|c r IH]; simpl; [done|].
  destruct (is_space c) eqn:E; simpl; [done|]. by rewrite E.
Qed.

Lemma strip_empty_iff s : strip s = "" ↔ blank s = true.
Proof.
  split; [|apply strip_blank].
  intros H. by apply lstrip_blank_inv, rstrip_empty_blank.
Qed.

(** A string without whitespace is stripped to itself. *)
Lemma strip_spaceless s : spaceless s = true → strip s = s.
Proof.
  unfold strip, spaceless. intros H.
  assert (Hl : lstrip s = s).
  { destruct s as [|c r]; simpl in *; [done|].
    apply andb_true_iff in H as [Hc _]. by destruct (is_space c). }
  rewrite Hl. clear Hl. induction s as [|c r IH]; simpl in *; [done|].
  apply andb_true_iff in H as [Hc Hr]. rewrite (IH Hr).
  destruct (is_space c); [done|]. by destruct r.
Qed.

Lemma hex_upper_not_space c :
  is_hex_digit c = true → is_space (upper_char c) = false.
Proof.
  destruct c as [[] [] [] [] [] [] [] []]; vm_compute; intros H;
    (reflexivity || discriminate H).
Qed.

Lemma hex_upper_spaceless s :
  forallb is_hex_digit (list_ascii_of_string s) = true →
  spaceless (upper s) = true.
Proof.
  unfold spaceless. induction s as [|c r IH]; simpl; [done|].
  intros [Hc Hr]%andb_true_iff. by rewrite hex_upper_not_space, IH.
Qed.

Lemma forallb_str_prefix (P : ascii → bool) n s :
  forallb P (list_ascii_of_string s) = true →
  forallb P (list_ascii_of_string (str_prefix n s)) = true.
Proof.
  revert s. induction n as [|n IH]; intros [|c r]; simpl; try done.
  intros [Hc Hr]%andb_true_iff. by rewrite Hc, IH.
Qed.

Lemma generated_id_spaceless u :
  is_uuid_hex u = true →
  spaceless (SessionManager._generate_session_id u) = true.
Proof.
  intros [_ H]%andb_true_iff. unfold SessionManager._generate_session_id.
  by apply hex_upper_spaceless, forallb_str_prefix.
Qed.

Lemma generated_id_nonempty u :
  is_uuid_hex u = true → SessionManager._generate_session_id u ≠ "".
Proof.
  intros [Hl _]%andb_true_iff. apply Nat.eqb_eq in Hl.
  destruct u as [|c r]; [discriminate Hl|]. discriminate.
Qed.

Lemma generated_id_upper u :
  is_upper (SessionManager._generate_session_id u).
Proof. apply upper_idem. Qed.

End Strings.

Section CreateSession.
Import SessionManager.

Lemma create_session_with_id u1 u2 now name d (sessions : store) :
  strip d ≠ "" →
  create_session u1 u2 now (SessionCreateRequest.mk name (Some d)) sessions =
    match sessions !! upper (strip d) with
    | Some _ => Raise session_exists
    | None =>
        let session := SessionState.init (upper (strip d)) name now in
        Ok (<[upper (strip d) := session]> sessions, session)
    end.
Proof.
  intros Hd. unfold create_session. simpl.
  assert (Ht : str_truthy d = true) by (destruct d; [by destruct Hd | done]).
  rewrite Ht. apply str_truthy_spec in Hd. by rewrite Hd.
Qed.

Lemma create_session_generated u1 u2 now name d (sessions : store) :
  blank d = true → is_uuid_hex u1 = true →
  create_session u1 u2 now (SessionCreateRequest.mk name (Some d)) sessions =
    let g := _generate_session_id (if str_truthy d then u2 else u1) in
    match sessions !! g with
    | Some _ => Raise session_exists
    | None =>
        let session := SessionState.init g name now in
        Ok (<[g := session]> sessions, session)
    end.
Proof.
  intros Hb Hu1. unfold create_session. simpl.
  destruct (str_truthy d) eqn:Ht.
  - rewrite (strip_blank d Hb). simpl. by rewrite generated_id_upper.
  - rewrite strip_spaceless by by apply generated_id_spaceless.
    pose proof (generated_id_nonempty u1 Hu1) as Hne.
    apply str_truthy_spec in Hne. rewrite Hne. simpl.
    by rewrite generated_id_upper.
Qed.

Lemma spaceless_not_blank s : spaceless s = true → s ≠ "" → blank s = false.
Proof.
  unfold spaceless, blank. destruct s as [|c r]; simpl; [done|].
  intros [Hc _]%andb_true_iff _. by destruct (is_space c).
Qed.
End CreateSession.

(** C4. A create with an explicit desired id (one that is not blank) on a
    store where the normal form of the id, its stripped upper-case form, is
    free stores the session under that normal form and with it as its id;
    the session is retrieved by every id whose upper-case form is the
    normal form; and a second create whose desired id has the same normal
    form raises the error of an id already taken and leaves the store as it
    was. *)
Theorem create_session_explicit_id u1 u2 now name d
    (sessions : SessionManager.store) :
  strip d ≠ "" →
  sessions !! upper (strip d) = None →
  ∃ session sessions',
    SessionManager.create_session u1 u2 now
      (SessionCreateRequest.mk name (Some d)) sessions = Ok (sessions', session)
    ∧ SessionState.id session = upper (strip d)
    ∧ sessions' !! upper (strip d) = Some session
    ∧ (∀ d', upper d' = upper (strip d) →
         SessionManager.require_session d' sessions' = Ok session)
    ∧ (∀ u1' u2' now' name' d',
         upper (strip d') = upper (strip d) →
         let again :=
           SessionManager.create_session u1' u2' now'
             (SessionCreateRequest.mk name' (Some d')) sessions' in
         again = Raise SessionManager.session_exists
         ∧ store_after again sessions' = sessions').
Proof.
  intros Hd Hfree. eexists _, _. rewrite create_session_with_id, Hfree by done.
  simpl. split; [reflexivity|]. split; [done|].
  split; [apply lookup_insert_eq|]. split.
  - intros d' Hd'. unfold SessionManager.require_session.
    by rewrite Hd', lookup_insert_eq.
  - intros u1' u2' now' name' d' Hd'.
    assert (Hne : strip d' ≠ "").
    { intros E. rewrite E in Hd'. symmetry in Hd'.
      apply (proj1 (upper_empty _)) in Hd'. by apply Hd. }
    rewrite create_session_with_id, Hd', lookup_insert_eq by done. done.
Qed.

Lemma create_session_explicit_id_witness :
  strip "abc123" ≠ ""
  ∧ (∅ : SessionManager.store) !! "ABC123" = None
  ∧ ∃ session sessions',
      SessionManager.create_session "" "" 0
        (SessionCreateRequest.mk None (Some "abc123")) ∅ = Ok (sessions', session)
      ∧ SessionState.id session = "ABC123"
      ∧ sessions' !! "ABC123" = Some session
      ∧ SessionManager.require_session "abc123" sessions' = Ok session
      ∧ SessionManager.create_session "" "" 1
          (SessionCreateRequest.mk None (Some "AbC123")) sessions'
        = Raise SessionManager.session_exists.
Proof.
  split; [discriminate|]. split; [apply lookup_empty|].
  destruct (create_session_explicit_id "" "" 0 None "abc123" ∅)
    as (session & sessions' & H1 & H2 & H3 & H4 & H5);
    [discriminate | apply lookup_empty |].
  exists session, sessions'. split; [exact H1|]. split; [exact H2|].
  split; [exact H3|]. split; [exact (H4 "abc123" eq_refl)|].
  exact (proj1 (H5 "" "" 1 None "AbC123" eq_refl)).
Defined.

(** C10, as stated, fails: the identifier is drawn once, and a draw that
    is already a key of the store makes the create fail. With the desired
    id ["   "], the draw [fedcba...] and a store that holds ["FEDCBA"],
    the create raises the error of an id already taken. *)
Lemma create_session_blank_id_collides :
  blank "   " = true
  ∧ is_uuid_hex uuid_0123 = true
  ∧ is_uuid_hex uuid_fedc = true
  ∧ SessionManager.create_session uuid_0123 uuid_fedc 1
      (SessionCreateRequest.mk None (Some "   ")) store_fedcba
    = Raise SessionManager.session_exists.
Proof.
  split; [reflexivity|]. split; [reflexivity|]. split; [reflexivity|].
  rewrite create_session_generated by reflexivity. reflexivity.
Qed.

(** C10, amended. A create whose desired id is empty or made of
    whitespace only takes a generated identifier (the first draw when the
    desired id is empty, the second when it is whitespace), a non-empty
    string in upper case that is not blank. The create returns exactly
    when that identifier is not yet a key of the store: the session's id
    is then the identifier, and it is the only key the store gains. When
    the identifier is already a key, the create raises the error of an id
    already taken and the store is as it was. In neither case does the
    store gain an empty or whitespace key. *)
Theorem create_session_blank_id u1 u2 now name d
    (sessions : SessionManager.store) :
  blank d = true →
  is_uuid_hex u1 = true →
  is_uuid_hex u2 = true →
  let g := SessionManager._generate_session_id (if str_truthy d then u2 else u1) in
  let r :=
    SessionManager.create_session u1 u2 now
      (SessionCreateRequest.mk name (Some d)) sessions in
  g ≠ "" ∧ is_upper g ∧ blank g = false
  ∧ (sessions !! g = None →
       ∃ session,
         r = Ok (<[g := session]> sessions, session)
         ∧ SessionState.id session = g)
  ∧ (is_Some (sessions !! g) →
       r = Raise SessionManager.session_exists
       ∧ store_after r sessions = sessions).
Proof.
  intros Hb Hu1 Hu2 g r.
  assert (Hu : is_uuid_hex (if str_truthy d then u2 else u1) = true)
    by (by destruct (str_truthy d)).
  assert (Hne : g ≠ "") by (by apply generated_id_nonempty).
  split; [done|]. split; [apply generated_id_upper|].
  split; [apply spaceless_not_blank; [by apply generated_id_spaceless | done]|].
  assert (Hr : r = match sessions !! g with
                   | Some _ => Raise SessionManager.session_exists
                   | None =>
                       Ok (<[g := SessionState.init g name now]> sessions,
                           SessionState.init g name now)
                   end).
  { unfold r. by rewrite create_session_generated. }
  split.
  - intros Hfree. rewrite Hfree in Hr. by eexists.
  - intros [s Hs]. rewrite Hs in Hr. by rewrite Hr.
Qed.

Lemma create_session_blank_id_witness :
  blank "   " = true
  ∧ is_uuid_hex uuid_0123 = true
  ∧ is_uuid_hex uuid_fedc = true
  ∧ (∃ session,
       SessionManager.create_session uuid_0123 uuid_fedc 0
         (SessionCreateRequest.mk None (Some "   ")) ∅
       = Ok (<["FEDCBA" := session]> ∅, session)
       ∧ SessionState.id session = "FEDCBA")
  ∧ SessionManager.create_session uuid_0123 uuid_fedc 1
      (SessionCreateRequest.mk None (Some "")) store_0123
    = Raise SessionManager.session_exists.
Proof.
  split; [reflexivity|]. split; [reflexivity|]. split; [reflexivity|]. split.
  - destruct (create_session_blank_id uuid_0123 uuid_fedc 0 None "   " ∅)
      as (_ & _ & _ & Hfree & _); [reflexivity | reflexivity | reflexivity |].
    apply Hfree, lookup_empty.
  - destruct (create_session_blank_id uuid_0123 uuid_fedc 1 None ""
                store_0123)
      as (_ & _ & _ & _ & Htaken); [reflexivity | reflexivity | reflexivity |].
    apply Htaken. by eexists.
Defined.

(** ** Clamping *)

Section FloatOrder.

Lemma lt_key a b :
  is_nan a = false → is_nan b = false →
  PyFloat.lt a b = true ↔ key_lt (order_key a) (order_key b).
Proof.
  unfold PyFloat.lt, SFltb.
  destruct a as [sa|sa| |sa ma ea], b as [sb|sb| |sb mb eb];
    try discriminate; intros _ _; simpl;
    try (destruct sa); try (destruct sb); simpl;
    try (destruct (Z.compare_spec ea eb));
    try (change (Pos.compare_cont Eq ma mb) with (Pos.compare ma mb);
         destruct (Pos.compare_spec ma mb)); simpl;
    split; intros Hx; try discriminate Hx; try reflexivity; lia.
Qed.

Lemma le_key a b :
  is_nan a = false → is_nan b = false →
  PyFloat.le a b = true ↔ ¬ key_lt (order_key b) (order_key a).
Proof.
  unfold PyFloat.le, SFleb.
  destruct a as [sa|sa| |sa ma ea], b as [sb|sb| |sb mb eb];
    try discriminate; intros _ _; simpl;
    try (destruct sa); try (destruct sb); simpl;
    try (destruct (Z.compare_spec ea eb));
    try (change (Pos.compare_cont Eq ma mb) with (Pos.compare ma mb);
         destruct (Pos.compare_spec ma mb)); simpl;
    split; intros Hx; try discriminate Hx; try reflexivity; lia.
Qed.

Lemma lt_not_nan a b : PyFloat.lt a b = true → is_nan a = false ∧ is_nan b = false.
Proof. by destruct a, b. Qed.

Lemma le_not_nan a b : PyFloat.le a b = true → is_nan a = false ∧ is_nan b = false.
Proof. by destruct a, b. Qed.

End FloatOrder.

Section Clamp.

Ltac key_order :=
  unfold key_lt;
  repeat match goal with
  | |- context [order_key ?a] => destruct (order_key a) as [[? ?] ?]
  | H : context [order_key ?a] |- _ => destruct (order_key a) as [[? ?] ?]
  end; lia.

Lemma lt_le a b : PyFloat.lt a b = true → PyFloat.le a b = true.
Proof.
  intros H. destruct (lt_not_nan _ _ H) as [Ha Hb].
  apply le_key; [done..|]. apply lt_key in H; [|done..].
  intros H'. revert H H'. key_order.
Qed.

Lemma le_refl a : is_nan a = false → PyFloat.le a a = true.
Proof. intros Ha. apply le_key; [done..|]. key_order. Qed.

Lemma not_le_not_lt a b : PyFloat.le a b = false → PyFloat.lt a b = false.
Proof.
  intros H. destruct (PyFloat.lt a b) eqn:E; [|done].
  by rewrite (lt_le _ _ E) in H.
Qed.

Lemma lt_trans a b c :
  PyFloat.lt a b = true → PyFloat.lt b c = true → PyFloat.lt a c = true.
Proof.
  intros H1 H2. destruct (lt_not_nan _ _ H1) as [Ha Hb].
  destruct (lt_not_nan _ _ H2) as [_ Hc].
  apply lt_key in H1, H2; [|done..]. apply lt_key; [done..|].
  revert H1 H2. key_order.
Qed.

(** [max(lo, min(hi, v))] lies between [lo] and [hi], whatever [v] is,
    a NaN or an infinity included. *)
Lemma clamp_in_range lo hi v :
  PyFloat.le lo hi = true →
  in_range lo hi (PyFloat.max lo (PyFloat.min hi v)) = true.
Proof.
  intros Hle. destruct (le_not_nan _ _ Hle) as [Hlo Hhi].
  unfold in_range, PyFloat.max, PyFloat.min.
  change PyFloat.gt with (λ a b, PyFloat.lt b a). cbv beta.
  destruct (PyFloat.lt v hi) eqn:E1.
  - destruct (PyFloat.lt lo v) eqn:E2.
    + by rewrite (lt_le _ _ E2), (lt_le _ _ E1).
    + by rewrite (le_refl _ Hlo), Hle.
  - destruct (PyFloat.lt lo hi) eqn:E2.
    + by rewrite Hle, (le_refl _ Hhi).
    + by rewrite (le_refl _ Hlo), Hle.
Qed.

(** The other case: when [hi] is below [lo], the clamp is [lo]. *)
Lemma clamp_crossed lo hi v :
  PyFloat.le lo hi = false →
  PyFloat.max lo (PyFloat.min hi v) = lo.
Proof.
  intros Hle. unfold PyFloat.max, PyFloat.min.
  change PyFloat.gt with (λ a b, PyFloat.lt b a). cbv beta.
  destruct (PyFloat.lt v hi) eqn:E1.
  - destruct (PyFloat.lt lo v) eqn:E2; [|done].
    pose proof (lt_trans _ _ _ E2 E1) as E3.
    by rewrite (not_le_not_lt _ _ Hle) in E3.
  - by rewrite (not_le_not_lt _ _ Hle).
Qed.

Lemma _clamp_or_default_unit v d :
  in_range PyFloat.f0_0 PyFloat.f1_0 (_clamp_or_default (Some v) d) = true.
Proof. simpl. by apply clamp_in_range. Qed.

(** The coordinates of a token that [add_token] builds. *)
Lemma new_token_unit u payload :
  let token := SessionManager.new_token u payload in
  in_range PyFloat.f0_0 PyFloat.f1_0 (Token.x token) = true
  ∧ in_range PyFloat.f0_0 PyFloat.f1_0 (Token.y token) = true.
Proof. split; apply _clamp_or_default_unit. Qed.

(** The coordinates of a token that [update_token] has changed: a
    coordinate given in the update is clamped, the other is kept. *)
Lemma update_token_fields_unit payload token token' :
  SessionManager.update_token_fields payload token = Ok token' →
  in_range PyFloat.f0_0 PyFloat.f1_0 (Token.x token) = true →
  in_range PyFloat.f0_0 PyFloat.f1_0 (Token.y token) = true →
  in_range PyFloat.f0_0 PyFloat.f1_0 (Token.x token') = true
  ∧ in_range PyFloat.f0_0 PyFloat.f1_0 (Token.y token') = true.
Proof.
  unfold SessionManager.update_token_fields. intros H Hx Hy.
  destruct (match TokenUpdateRequest.stats payload with
            | Some upd => _ | None => _ end) as [st|]; [|discriminate H].
  simpl in H. injection H as <-. simpl.
  split.
  - destruct (TokenUpdateRequest.x payload); [|done].
    apply _clamp_or_default_unit.
  - destruct (TokenUpdateRequest.y payload); [|done].
    apply _clamp_or_default_unit.
Qed.

Lemma clamped_zoom_not_zero z :
  PyFloat.le PyFloat.f0_2 z = true → PyFloat.eq z PyFloat.f0_0 = false.
Proof. destruct z as [[]|[]| |[] m e]; done. Qed.

Lemma rem_360_returns v : ∃ r, PyFloat.rem v PyFloat.f360 = Ok r.
Proof.
  unfold PyFloat.rem.
  change (PyFloat.eq PyFloat.f360 PyFloat.f0_0) with false. cbv iota.
  destruct (PyFloat.eq _ PyFloat.f0_0); [by eexists|].
  destruct (negb _); by eexists.
Qed.

(** [set_map_view]'s mutator raises for no view, and this is the view it
    stores. *)
Lemma normalize_view_returns view :
  let zoom :=
    PyFloat.max PyFloat.f0_2 (PyFloat.min PyFloat.f8_0 (MapView.zoom view)) in
  ∃ rotation half_width,
    PyFloat.rem (MapView.rotation view) PyFloat.f360 = Ok rotation
    ∧ PyFloat.truediv PyFloat.f0_5 zoom = Ok half_width
    ∧ SessionManager.normalize_view view =
        Ok (MapView.mk
              (WarpPoint.mk
                 (SessionManager.clamp_center half_width
                    (WarpPoint.x (MapView.center view)))
                 (SessionManager.clamp_center half_width
                    (WarpPoint.y (MapView.center view))))
              zoom rotation).
Proof.
  intros zoom. destruct (rem_360_returns (MapView.rotation view)) as [r Hr].
  assert (Hz : in_range PyFloat.f0_2 PyFloat.f8_0 zoom = true)
    by by apply clamp_in_range.
  apply andb_true_iff in Hz as [Hz _].
  exists r, (SFdiv PyFloat.prec PyFloat.emax PyFloat.f0_5 zoom).
  split; [done|].
  assert (Hd : PyFloat.truediv PyFloat.f0_5 zoom
               = Ok (SFdiv PyFloat.prec PyFloat.emax PyFloat.f0_5 zoom)).
  { unfold PyFloat.truediv. by rewrite clamped_zoom_not_zero. }
  split; [done|].
  unfold SessionManager.normalize_view. fold zoom. rewrite Hr. simpl.
  by rewrite Hd.
Qed.

(** The stored zoom, for every submitted zoom. *)
Lemma normalize_view_zoom view v :
  SessionManager.normalize_view view = Ok v →
  in_range PyFloat.f0_2 PyFloat.f8_0 (MapView.zoom v) = true.
Proof.
  destruct (normalize_view_returns view) as (r & h & _ & _ & ->).
  intros [= <-]. simpl. by apply clamp_in_range.
Qed.

End Clamp.

(** ** The mutation primitive *)

Section Mutate.
Import SessionManager.

Lemma mutate_session_returns {A} now sid
    (mutator : SessionState.t → Result (SessionState.t * A))
    (sessions : store) s s1 a :
  sessions !! upper sid = Some s →
  mutator s = Ok (s1, a) →
  mutate_session now sid mutator sessions =
    Ok (<[upper sid := committed now s1]> sessions, committed now s1, a).
Proof. intros Hs Hm. unfold mutate_session. by rewrite Hs, Hm. Qed.

Lemma mutate_session_inv {A} now sid
    (mutator : SessionState.t → Result (SessionState.t * A))
    (sessions sessions' : store) s' a :
  mutate_session now sid mutator sessions = Ok (sessions', s', a) →
  ∃ s s1,
    sessions !! upper sid = Some s
    ∧ mutator s = Ok (s1, a)
    ∧ s' = committed now s1
    ∧ sessions' = <[upper sid := s']> sessions.
Proof.
  unfold mutate_session. destruct (sessions !! upper sid) as [s|]; [|done].
  destruct (mutator s) as [[s1 a1]|] eqn:Hm; [|done]. simpl.
  intros [= <- <- <-]. by exists s, s1.
Qed.

Lemma _sync_token_order_map s :
  SessionState.map (_sync_token_order s) = SessionState.map s.
Proof.
  unfold _sync_token_order. destruct (SessionState.tokens s); [done|].
  by destruct (reorder _ _).
Qed.

Lemma _sync_token_order_presets s :
  SessionState.presets (_sync_token_order s) = SessionState.presets s.
Proof.
  unfold _sync_token_order. destruct (SessionState.tokens s); [done|].
  by destruct (reorder _ _).
Qed.

Lemma set_map_view_inv now sid view (sessions sessions' : store) session :
  set_map_view now sid view sessions = Ok (sessions', session, tt) →
  normalize_view view = Ok (MapState.view (SessionState.map session)).
Proof.
  intros (s & s1 & _ & Hm & -> & _)%mutate_session_inv.
  destruct (normalize_view view) as [v|]; [|done].
  simpl in Hm. injection Hm as <-.
  unfold committed. simpl. by rewrite _sync_token_order_map.
Qed.

(** [set_map_view] raises for no view when the session exists. *)
Lemma set_map_view_returns now sid view (sessions : store) :
  is_Some (sessions !! upper sid) →
  ∃ sessions' session,
    set_map_view now sid view sessions = Ok (sessions', session, tt).
Proof.
  intros [s Hs].
  destruct (normalize_view_returns view) as (r & h & _ & _ & Hv).
  eexists _, _. unfold set_map_view.
  erewrite mutate_session_returns; [done | done |].
  by rewrite Hv.
Qed.
End Mutate.

(** ** The stored view *)

(** C3, as stated, fails: a view submitted with zoom [0.5] is stored with
    the centre [(1.0, 1.0)], and [1 - 0.5 / 0.5] is [0.0]. *)
Lemma set_map_view_center_outside :
  ¬ (∀ view v, SessionManager.normalize_view view = Ok v → center_within v).
Proof.
  intros H. destruct (H view_zoomed_out _ eq_refl) as (h & Hh & Hx & _).
  vm_compute in Hh. injection Hh as <-. vm_compute in Hx. discriminate Hx.
Qed.

(** C3, amended. For the view [v] that [set_map_view] stores, with
    [h = 0.5 / zoom v] and [u = 1 - h] as the code computes them: when
    [h <= u], both coordinates of the centre lie between [h] and [u]. *)
Theorem set_map_view_center now sid view
    (sessions sessions' : SessionManager.store) session :
  SessionManager.set_map_view now sid view sessions = Ok (sessions', session, tt) →
  let v := MapState.view (SessionState.map session) in
  ∃ h,
    PyFloat.truediv PyFloat.f0_5 (MapView.zoom v) = Ok h
    ∧ let u := PyFloat.sub PyFloat.f1_0 h in
      (PyFloat.le h u = true →
         in_range h u (WarpPoint.x (MapView.center v)) = true
         ∧ in_range h u (WarpPoint.y (MapView.center v)) = true).
Proof.
  intros Hv%set_map_view_inv v.
  destruct (normalize_view_returns view) as (r & h & _ & Hh & E).
  rewrite E in Hv. injection Hv as Hv. fold v in Hv. rewrite <- Hv. simpl.
  exists h. split; [exact Hh|].
  intros Hle. split; by apply clamp_in_range.
Qed.

Lemma set_map_view_center_witness :
  ∃ sessions' session,
    SessionManager.set_map_view 1 "X" view_zoomed_in one_session
      = Ok (sessions', session, tt)
    ∧ let c := MapView.center (MapState.view (SessionState.map session)) in
      in_range f0_25 f0_75 (WarpPoint.x c) = true
      ∧ in_range f0_25 f0_75 (WarpPoint.y c) = true.
Proof.
  destruct (set_map_view_returns 1 "X" view_zoomed_in one_session)
    as (sessions' & session & H); [by eexists|].
  exists sessions', session. split; [exact H|].
  destruct (set_map_view_center _ _ _ _ _ _ H) as (h & Hh & Hin).
  pose proof (set_map_view_inv _ _ _ _ _ _ H) as Hv.
  assert (E : SessionManager.normalize_view view_zoomed_in
              = Ok (MapView.mk (WarpPoint.mk f0_75 f0_25) f2_0 PyFloat.f0_0))
    by (vm_compute; reflexivity).
  rewrite E in Hv. injection Hv as Hv. rewrite <- Hv in Hh, Hin |- *.
  vm_compute in Hh. injection Hh as <-. apply Hin. vm_compute. reflexivity.
Defined.

(** What the code does in the other case, when [h] is above [u] (the view
    is wider than the map): both coordinates of the stored centre
    are [h]. *)
Lemma set_map_view_center_crossed now sid view
    (sessions sessions' : SessionManager.store) session h :
  SessionManager.set_map_view now sid view sessions = Ok (sessions', session, tt) →
  let v := MapState.view (SessionState.map session) in
  PyFloat.truediv PyFloat.f0_5 (MapView.zoom v) = Ok h →
  PyFloat.le h (PyFloat.sub PyFloat.f1_0 h) = false →
  MapView.center v = WarpPoint.mk h h.
Proof.
  intros Hv%set_map_view_inv v.
  destruct (normalize_view_returns view) as (r & h' & _ & Hh & E).
  rewrite E in Hv. injection Hv as Hv. fold v in Hv. rewrite <- Hv. simpl.
  rewrite Hh. intros [= <-] Hle.
  unfold SessionManager.clamp_center. by rewrite !clamp_crossed.
Qed.

(** C2. Submitted with the rotation [-1e-20], a view is stored with the
    rotation [360.0], which is not below [360]: the remainder [-1e-20] of
    the C library takes the divisor's sign by an addition, and the sum
    rounds to the divisor. *)
Theorem set_map_view_rotation_360 :
  ∃ sessions' session,
    SessionManager.set_map_view 1 "X" view_turned_back one_session
      = Ok (sessions', session, tt)
    ∧ MapView.rotation (MapState.view (SessionState.map session)) = PyFloat.f360
    ∧ PyFloat.lt PyFloat.f360 PyFloat.f360 = false.
Proof.
  destruct (set_map_view_returns 1 "X" view_turned_back one_session)
    as (sessions' & session & H); [by eexists|].
  exists sessions', session. split; [exact H|]. split; [|reflexivity].
  apply set_map_view_inv in H.
  assert (E : SessionManager.normalize_view view_turned_back
              = Ok (MapView.mk (WarpPoint.mk PyFloat.f0_5 PyFloat.f0_5)
                      PyFloat.f1_0 PyFloat.f360)) by (vm_compute; reflexivity).
  rewrite E in H. by injection H as <-.
Qed.

(** The same happens at the infinities and at a NaN: the stored rotation is
    a NaN, which no comparison places in a range. *)
Lemma normalize_view_rotation_nan :
  ∃ v,
    SessionManager.normalize_view
      (MapView.mk (WarpPoint.mk PyFloat.f0_5 PyFloat.f0_5) PyFloat.f1_0
         (S754_infinity false)) = Ok v
    ∧ MapView.rotation v = S754_nan.
Proof. by eexists. Qed.

(** ** Partial updates *)

Section UpdateToken.
Import SessionManager.

Lemma merge_stats_returns old upd :
  merge_stats old upd = Ok (merge_given_not_null old upd).
Proof.
  unfold merge_stats, merge_given_not_null,
    TokenStats.model_dump_exclude_unset, TokenStats.model_dump.
  simpl List.filter.
  destruct (TokenStats.is_set upd "hp"),
    (TokenStats.is_set upd "max_hp"),
    (TokenStats.is_set upd "initiative"),
    (TokenStats.is_set upd "spell_slots");
    destruct (TokenStats.hp upd), (TokenStats.max_hp upd),
      (TokenStats.initiative upd);
    destruct (TokenStats.hp old), (TokenStats.max_hp old),
      (TokenStats.initiative old); reflexivity.
Qed.

Lemma update_token_fields_returns payload token :
  ∃ token',
    update_token_fields payload token = Ok token'
    ∧ Token.id token' = Token.id token
    ∧ Token.stats token' =
        match TokenUpdateRequest.stats payload with
        | Some upd => merge_given_not_null (Token.stats token) upd
        | None => Token.stats token
        end.
Proof.
  unfold update_token_fields.
  destruct (TokenUpdateRequest.stats payload) as [upd|].
  - rewrite merge_stats_returns. by eexists.
  - by eexists.
Qed.

Lemma update_first_token_found tid payload tokens token token' :
  find_token tid tokens = Some token →
  update_token_fields payload token = Ok token' →
  ∃ tokens', update_first_token tid payload tokens = Ok (tokens', token').
Proof.
  unfold find_token. intros Hf Hu.
  induction tokens as [|t r IH]; simpl in *; [done|].
  destruct (String.eqb (Token.id t) tid).
  - injection Hf as ->. rewrite Hu. by eexists.
  - destruct (IH Hf) as [r' ->]. by eexists.
Qed.

Lemma find_token_id tid tokens token :
  find_token tid tokens = Some token → Token.id token = tid.
Proof.
  intros [_ H]%find_some. by apply String.eqb_eq.
Qed.
End UpdateToken.

Section UpdateTokenStats.
Import SessionManager.

Lemma update_token_returns now sid tid payload (sessions : store) s token :
  sessions !! upper sid = Some s →
  find_token tid (SessionState.tokens s) = Some token →
  ∃ sessions' session token',
    update_token now sid tid payload sessions = Ok (sessions', session, token')
    ∧ update_token_fields payload token = Ok token'.
Proof.
  intros Hs Hf.
  destruct (update_token_fields_returns payload token) as (token' & Hu & _).
  destruct (update_first_token_found _ _ _ _ _ Hf Hu) as [tokens' Ht].
  eexists _, _, token'. split; [|done]. unfold update_token.
  erewrite mutate_session_returns; [done | done |]. by rewrite Ht.
Qed.
End UpdateTokenStats.

(** C5, as stated, fails: an update that gives [hp] explicitly, as null,
    leaves the stored [hp] as it was. *)
Lemma update_token_null_keeps_hp :
  TokenStats.is_set stats_hp_null "hp" = true
  ∧ TokenStats.hp stats_hp_null = None
  ∧ ∃ sessions' session token',
      SessionManager.update_token 1 "X" "a" (update_stats stats_hp_null)
        {[ "X" := session_with_a ]} = Ok (sessions', session, token')
      ∧ TokenStats.hp (Token.stats token') = Some 10
      ∧ Token.stats token' ≠ merge_given stats_10_20 stats_hp_null.
Proof.
  split; [reflexivity|]. split; [reflexivity|].
  destruct (update_token_returns 1 "X" "a" (update_stats stats_hp_null)
              {[ "X" := session_with_a ]} session_with_a token_a)
    as (sessions' & session & token' & H & Hu); [done | done |].
  exists sessions', session, token'. split; [exact H|].
  injection Hu as <-. split; [reflexivity | discriminate].
Qed.

(** C5, amended. [update_token] with stats in the partial update returns
    the token with the stored stats merged field by field: a field that the
    update gives with a value that is not null takes that value, and a
    field that the update leaves out, or gives as null, keeps the stored
    one. *)
Theorem update_token_stats_merge now sid tid payload upd
    (sessions : SessionManager.store) s token :
  sessions !! upper sid = Some s →
  find_token tid (SessionState.tokens s) = Some token →
  TokenUpdateRequest.stats payload = Some upd →
  ∃ sessions' session token',
    SessionManager.update_token now sid tid payload sessions
      = Ok (sessions', session, token')
    ∧ Token.id token' = tid
    ∧ Token.stats token' = merge_given_not_null (Token.stats token) upd.
Proof.
  intros Hs Hf Hp.
  destruct (update_token_returns now sid tid payload sessions s token Hs Hf)
    as (sessions' & session & token' & H & Hu).
  exists sessions', session, token'. split; [exact H|].
  destruct (update_token_fields_returns payload token) as (t & Ht & Hid & Hst).
  rewrite Ht in Hu. injection Hu as ->. rewrite Hp in Hst.
  split; [|exact Hst]. rewrite Hid. by apply find_token_id in Hf.
Qed.

Lemma update_token_stats_merge_witness :
  ∃ sessions' session token',
    SessionManager.update_token 1 "X" "a" (update_stats stats_hp_5)
      {[ "X" := session_with_a ]} = Ok (sessions', session, token')
    ∧ TokenStats.hp (Token.stats token') = Some 5
    ∧ TokenStats.max_hp (Token.stats token') = Some 20.
Proof.
  destruct (update_token_stats_merge 1 "X" "a" (update_stats stats_hp_5)
              stats_hp_5 {[ "X" := session_with_a ]} session_with_a token_a)
    as (sessions' & session & token' & H & _ & Hst);
    [reflexivity | reflexivity | reflexivity |].
  exists sessions', session, token'. split; [exact H|].
  rewrite Hst. split; reflexivity.
Defined.

(** ** The token order *)

Section Dictionary.
Import SessionManager.

Lemma token_ids_app l1 l2 : token_ids (l1 ++ l2) = token_ids l1 ++ token_ids l2.
Proof. apply List.map_app. Qed.

Lemma mem_In i l : mem i l = true ↔ In i l.
Proof.
  unfold mem. rewrite existsb_exists. split.
  - intros (j & Hj & ->%String.eqb_eq). done.
  - intros H. exists i. by rewrite String.eqb_refl.
Qed.

Lemma mem_not_In i l : mem i l = false ↔ ¬ In i l.
Proof. rewrite <- mem_In. by destruct (mem i l). Qed.

Lemma dict_of_keys ts : Dict.keys (dict_of ts) = token_ids ts.
Proof. unfold Dict.keys, dict_of, token_ids. rewrite List.map_map. done. Qed.

Lemma dict_of_values ts : Dict.values (dict_of ts) = ts.
Proof.
  unfold Dict.values, dict_of. rewrite List.map_map. simpl. apply List.map_id.
Qed.

Lemma without_id_absent k ts : ¬ In k (token_ids ts) → without_id k ts = ts.
Proof.
  induction ts as [|t r IH]; simpl; [done|]. intros H.
  destruct (String.eqb_spec (Token.id t) k) as [E|E]; simpl.
  - destruct H. by left.
  - rewrite IH; [done|]. intros Hin. apply H. by right.
Qed.

Lemma without_id_ids k ts :
  token_ids (without_id k ts)
  = List.filter (λ i, negb (String.eqb i k)) (token_ids ts).
Proof.
  induction ts as [|t r IH]; simpl; [done|].
  destruct (String.eqb (Token.id t) k); simpl; by rewrite IH.
Qed.

Lemma without_id_NoDup k ts :
  List.NoDup (token_ids ts) → List.NoDup (token_ids (without_id k ts)).
Proof. rewrite without_id_ids. apply List.NoDup_filter. Qed.

Lemma find_token_absent k ts :
  find_token k ts = None ↔ ¬ In k (token_ids ts).
Proof.
  unfold find_token. induction ts as [|t r IH]; simpl; [tauto|].
  destruct (String.eqb_spec (Token.id t) k) as [E|E].
  - split; [done|]. intros H. destruct H. by left.
  - rewrite IH. split; intros H; [intros [?|?]; [done|by apply H] | ].
    intros Hin. apply H. by right.
Qed.

(** Popping an id from the dictionary of tokens with distinct ids. *)
Lemma pop_dict_of k ts :
  List.NoDup (token_ids ts) →
  Dict.pop (dict_of ts) k = (find_token k ts, dict_of (without_id k ts)).
Proof.
  unfold find_token. induction ts as [|t r IH]; simpl; [done|].
  intros [Hnotin Hnd]%List.NoDup_cons_iff.
  destruct (String.eqb_spec (Token.id t) k) as [E|E]; simpl.
  - rewrite without_id_absent; [done|]. by rewrite <- E.
  - by rewrite (IH Hnd).
Qed.
End Dictionary.

Section Reorder.
Import SessionManager.

Lemma find_token_without_id k ts t :
  List.NoDup (token_ids ts) → find_token k ts = Some t →
  Permutation ts (t :: without_id k ts).
Proof.
  unfold find_token. induction ts as [|a r IH]; simpl; [done|].
  intros [Hnotin Hnd]%List.NoDup_cons_iff.
  destruct (String.eqb_spec (Token.id a) k) as [E|E]; simpl.
  - intros [= ->]. rewrite without_id_absent; [done|]. by rewrite <- E.
  - intros Hf. rewrite perm_swap. by apply Permutation_cons, IH.
Qed.

Lemma pick_permutation ts wanted :
  List.NoDup (token_ids ts) →
  Permutation (fst (pick ts wanted) ++ snd (pick ts wanted)) ts.
Proof.
  revert ts. induction wanted as [|k w IH]; intros ts Hnd; simpl; [done|].
  destruct (find_token k ts) as [t|] eqn:Hf; [|by apply IH].
  specialize (IH (without_id k ts) (without_id_NoDup k ts Hnd)).
  destruct (pick (without_id k ts) w) as [picked others]. simpl in *.
  rewrite IH. symmetry. by apply find_token_without_id.
Qed.

(** The loop, on the dictionary of tokens with distinct ids. *)
Lemma order_loop wanted ts ordered seen :
  List.NoDup (token_ids ts) →
  fold_left order_step wanted (dict_of ts, ordered, seen)
  = (dict_of (snd (pick ts wanted)),
     ordered ++ fst (pick ts wanted),
     seen ++ token_ids (fst (pick ts wanted))).
Proof.
  revert ts ordered seen.
  induction wanted as [|k w IH]; intros ts ordered seen Hnd; simpl.
  - by rewrite !app_nil_r.
  - rewrite pop_dict_of by done.
    destruct (find_token k ts) as [t|] eqn:Hf.
    + rewrite IH by by apply without_id_NoDup.
      destruct (pick (without_id k ts) w) as [picked others]. simpl.
      apply find_token_id in Hf as <-. by rewrite <- !app_assoc.
    + apply find_token_absent in Hf. rewrite without_id_absent by done.
      by apply IH.
Qed.

Lemma set_dict_of acc t :
  ∃ acc',
    Dict.set (dict_of acc) (Token.id t) t = dict_of acc'
    ∧ (In (Token.id t) (token_ids acc) → token_ids acc' = token_ids acc)
    ∧ (¬ In (Token.id t) (token_ids acc) → acc' = acc ++ [t]).
Proof.
  induction acc as [|a r (acc' & Hs & Hin & Hout)]; simpl.
  - exists [t]. by intuition.
  - destruct (String.eqb_spec (Token.id a) (Token.id t)) as [E|E].
    + exists (t :: r). simpl. rewrite E. intuition.
    + exists (a :: acc'). simpl. rewrite Hs. split; [done|]. split.
      * intros [?|?]; [done|]. by rewrite Hin.
      * intros H. rewrite Hout; [done|]. intros ?. apply H. by right.
Qed.

Lemma id_to_token_from l acc :
  List.NoDup (token_ids acc) →
  ∃ ts,
    fold_left (λ d token, Dict.set d (Token.id token) token) l (dict_of acc)
      = dict_of ts
    ∧ List.NoDup (token_ids ts)
    ∧ (List.NoDup (token_ids (acc ++ l)) → ts = acc ++ l).
Proof.
  revert acc. induction l as [|t l IH]; intros acc Hnd; simpl.
  - exists acc. by rewrite app_nil_r.
  - destruct (set_dict_of acc t) as (acc' & -> & Hin & Hout).
    assert (Hnd' : List.NoDup (token_ids acc')).
    { destruct (in_dec string_dec (Token.id t) (token_ids acc)) as [H|H].
      - by rewrite Hin.
      - rewrite (Hout H), token_ids_app. simpl.
        eapply Permutation_NoDup; [apply Permutation_cons_append|].
        by constructor. }
    destruct (IH acc' Hnd') as (ts & -> & Hts & Heq).
    exists ts. split; [done|]. split; [done|]. intros Hall.
    assert (Hfresh : ¬ In (Token.id t) (token_ids acc)).
    { rewrite token_ids_app in Hall. simpl in Hall.
      apply NoDup_remove_2 in Hall. intros ?. apply Hall, in_or_app. by left. }
    rewrite (Hout Hfresh) in Heq. rewrite <- app_assoc in Heq. by apply Heq.
Qed.

(** [id_to_token] keeps one token per id, and every token when the ids
    are distinct. *)
Lemma id_to_token_dict tokens :
  ∃ ts,
    id_to_token tokens = dict_of ts
    ∧ List.NoDup (token_ids ts)
    ∧ (List.NoDup (token_ids tokens) → ts = tokens).
Proof. apply (id_to_token_from tokens []). constructor. Qed.

Lemma reorder_pick tokens ts wanted :
  id_to_token tokens = dict_of ts → List.NoDup (token_ids ts) →
  reorder tokens wanted
  = (fst (pick ts wanted) ++ snd (pick ts wanted),
     token_ids (fst (pick ts wanted)) ++ token_ids (snd (pick ts wanted))).
Proof.
  intros Hd Hnd. unfold reorder. rewrite Hd, order_loop by done.
  by rewrite dict_of_values.
Qed.

(** Whatever the tokens and the wanted ids, the loop leaves an order list
    that is the list of the tokens' ids, without a repetition. *)
Lemma reorder_synced tokens wanted :
  snd (reorder tokens wanted) = token_ids (fst (reorder tokens wanted))
  ∧ List.NoDup (snd (reorder tokens wanted)).
Proof.
  destruct (id_to_token_dict tokens) as (ts & Hd & Hnd & _).
  rewrite (reorder_pick _ _ _ Hd Hnd). simpl. rewrite <- token_ids_app.
  split; [done|].
  eapply Permutation_NoDup; [|exact Hnd].
  symmetry. apply Permutation_map. by apply pick_permutation.
Qed.

Lemma _sync_token_order_synced s : order_synced (_sync_token_order s).
Proof.
  unfold order_synced, _sync_token_order.
  destruct (SessionState.tokens s) as [|t r] eqn:E; simpl.
  - rewrite E. split; [done | constructor].
  - pose proof (reorder_synced (t :: r) (SessionState.token_order s)) as H.
    by destruct (reorder (t :: r) (SessionState.token_order s)).
Qed.

Lemma order_synced_bijection s : order_synced s → in_bijection s.
Proof.
  intros [E Hnd]. unfold in_bijection. rewrite <- E. by intuition.
Qed.

Lemma committed_synced now s : order_synced (committed now s).
Proof. apply (_sync_token_order_synced s). Qed.
End Reorder.

Section Invariant.
Import SessionManager.

Lemma mutate_session_synced {A} now sid
    (mutator : SessionState.t → Result (SessionState.t * A))
    (sessions sessions' : store) s' a :
  mutate_session now sid mutator sessions = Ok (sessions', s', a) →
  order_synced s' ∧ sessions' !! upper sid = Some s'.
Proof.
  intros (s & s1 & _ & _ & -> & ->)%mutate_session_inv.
  split; [apply committed_synced | apply lookup_insert_eq].
Qed.

Lemma stored_inv {A} (r : Result (store * SessionState.t * A)) sessions' s' :
  stored r = Ok (sessions', s') → ∃ a, r = Ok (sessions', s', a).
Proof.
  destruct r as [[[x y] a]|]; [|done]. simpl. intros [= <- <-]. by exists a.
Qed.

Lemma run_synced m now sid (sessions sessions' : store) s' :
  run m now sid sessions = Ok (sessions', s') →
  order_synced s' ∧ sessions' !! upper sid = Some s'.
Proof.
  destruct m; simpl; intros [a H]%stored_inv;
    by apply mutate_session_synced in H.
Qed.
End Invariant.

(** C1. Whatever the session was, once a mutate-family operation has
    returned, the order list and the token collection of the session it
    leaves in the store are in bijection: neither repeats an id, they hold
    the same ids, and the order list is the list of the tokens' ids. *)
Theorem mutation_keeps_bijection m now sid
    (sessions sessions' : SessionManager.store) s' :
  run m now sid sessions = Ok (sessions', s') →
  sessions' !! upper sid = Some s'
  ∧ in_bijection s'
  ∧ SessionState.token_order s' = token_ids (SessionState.tokens s').
Proof.
  intros [Hs Hl]%run_synced. split; [exact Hl|].
  split; [by apply order_synced_bijection | apply Hs].
Qed.

Lemma mutation_keeps_bijection_witness :
  ∃ sessions' s',
    run (AddToken "b" token_request) 1 "x" {[ "X" := session_out_of_sync ]}
      = Ok (sessions', s')
    ∧ in_bijection s'
    ∧ SessionState.token_order s' = ["a"; "b"].
Proof.
  destruct (run (AddToken "b" token_request) 1 "x"
              {[ "X" := session_out_of_sync ]}) as [[sessions' s']|e] eqn:H;
    [|discriminate H].
  exists sessions', s'. split; [reflexivity|].
  destruct (mutation_keeps_bijection _ _ _ _ _ _ H) as (_ & Hb & _).
  split; [exact Hb|]. by injection H as _ <-.
Defined.

Section PickIds.
Import SessionManager.

Lemma filter_filter {A} (f g : A → bool) l :
  List.filter f (List.filter g l) = List.filter (λ x, g x && f x) l.
Proof.
  induction l as [|x l IH]; simpl; [done|].
  destruct (g x); simpl; [|done]. destruct (f x); by rewrite IH.
Qed.

Lemma filter_all {A} (f : A → bool) l :
  (∀ x, In x l → f x = true) → List.filter f l = l.
Proof.
  induction l as [|x l IH]; simpl; intros H; [done|].
  rewrite (H x) by by left. rewrite IH; [done|]. intros; apply H; by right.
Qed.

(** The tokens left are those whose id is not wanted, in their order. *)
Lemma pick_left_ids wanted ts :
  token_ids (snd (pick ts wanted))
  = List.filter (λ i, negb (mem i wanted)) (token_ids ts).
Proof.
  revert ts. induction wanted as [|k w IH]; intros ts; simpl.
  - by rewrite filter_all.
  - destruct (find_token k ts) as [t|] eqn:Hf.
    + specialize (IH (without_id k ts)).
      destruct (pick (without_id k ts) w) as [picked others]. simpl in *.
      rewrite IH, without_id_ids, filter_filter.
      apply filter_ext. intros i. unfold mem. simpl.
      by destruct (String.eqb i k).
    + rewrite IH. apply find_token_absent in Hf.
      apply filter_ext_in. intros i Hi.
      unfold mem. simpl.
      by destruct (String.eqb_spec i k) as [->|].
Qed.

(** The tokens picked are those of the first occurrences of the wanted
    ids that are ids of tokens; [seen] holds the ids picked before. *)
Lemma pick_first_ids wanted ts seen known :
  (∀ i, In i (token_ids ts) ↔ In i known ∧ ¬ In i seen) →
  token_ids (fst (pick ts wanted))
  = first_occurrences_from seen (List.filter (λ i, mem i known) wanted).
Proof.
  revert ts seen. induction wanted as [|k w IH]; intros ts seen Hinv; simpl;
    [done|].
  destruct (find_token k ts) as [t|] eqn:Hf.
  - pose proof (find_token_id _ _ _ Hf) as Hid.
    assert (Hk : In k (token_ids ts)).
    { rewrite <- Hid. apply in_map. apply find_some in Hf. tauto. }
    apply Hinv in Hk as [Hknown Hseen].
    apply mem_In in Hknown. rewrite Hknown. simpl.
    apply mem_not_In in Hseen. rewrite Hseen.
    specialize (IH (without_id k ts) (k :: seen)).
    destruct (pick (without_id k ts) w) as [picked others]. simpl in *.
    rewrite Hid. f_equal. apply IH. intros i.
    rewrite without_id_ids, filter_In, Hinv, negb_true_iff.
    destruct (String.eqb_spec i k) as [->|Hne]; simpl; intuition congruence.
  - apply find_token_absent in Hf.
    destruct (mem k known) eqn:Hknown; simpl; [|by apply IH].
    assert (Hseen : mem k seen = true).
    { apply mem_In. apply mem_In in Hknown.
      destruct (in_dec string_dec k seen) as [|Hn]; [done|].
      destruct Hf. apply Hinv. by split. }
    rewrite Hseen. by apply IH.
Qed.

Lemma pick_all ts :
  List.NoDup (token_ids ts) → pick ts (token_ids ts) = (ts, []).
Proof.
  induction ts as [|t r IH]; simpl; [done|].
  intros [Hnotin Hnd]%List.NoDup_cons_iff.
  unfold find_token. simpl. rewrite String.eqb_refl. simpl.
  rewrite without_id_absent by done. by rewrite (IH Hnd).
Qed.

(** A session whose order list is the list of its tokens' ids is left as
    it is by [_sync_token_order]. *)
Lemma _sync_token_order_fixed s :
  order_synced s → _sync_token_order s = s.
Proof.
  intros [E Hnd]. unfold _sync_token_order.
  destruct s as [i n m ts order ps u]. simpl in *. subst order.
  destruct ts as [|t r]; [done|].
  destruct (id_to_token_dict (t :: r)) as (ts & Hd & Hts & Heq).
  rewrite (Heq Hnd) in Hd.
  rewrite (reorder_pick _ _ _ Hd Hnd), pick_all by done. simpl.
  by rewrite !app_nil_r.
Qed.

Lemma reorder_expected ts wanted :
  List.NoDup (token_ids ts) →
  let '(tokens, order) := reorder ts wanted in
  order = expected_order (token_ids ts) wanted
  ∧ token_ids tokens = order
  ∧ Permutation tokens ts.
Proof.
  intros Hnd. destruct (id_to_token_dict ts) as (ts' & Hd & _ & Heq).
  rewrite (Heq Hnd) in Hd. rewrite (reorder_pick _ _ _ Hd Hnd).
  rewrite token_ids_app. split; [|split; [done | by apply pick_permutation]].
  unfold expected_order, first_occurrences.
  rewrite pick_left_ids. f_equal. apply pick_first_ids.
  intros i. simpl. tauto.
Qed.
End PickIds.

(** C6. On a session whose order list is the list of its tokens' ids,
    [set_token_order] returns, and leaves the tokens of the session, and
    its order list, in this order: first the desired ids that are ids of
    tokens, in the desired sequence (an id desired twice counts where it
    comes first, an id of no token is passed over), then the tokens that
    are not desired, in the order they had. *)
Theorem set_token_order_reorders now sid payload
    (sessions : SessionManager.store) s :
  sessions !! upper sid = Some s →
  order_synced s →
  ∃ sessions' s',
    SessionManager.set_token_order now sid payload sessions
      = Ok (sessions', s', tt)
    ∧ sessions' !! upper sid = Some s'
    ∧ SessionState.token_order s'
      = expected_order (SessionState.token_order s)
          (TokenOrderUpdateRequest.order payload)
    ∧ token_ids (SessionState.tokens s') = SessionState.token_order s'
    ∧ Permutation (SessionState.tokens s') (SessionState.tokens s).
Proof.
  intros Hs [E Hnd]. rewrite E in Hnd |- *.
  pose proof (reorder_expected (SessionState.tokens s)
                (TokenOrderUpdateRequest.order payload) Hnd) as Hr.
  unfold SessionManager.set_token_order.
  destruct (SessionManager.reorder (SessionState.tokens s)
              (TokenOrderUpdateRequest.order payload)) as [ts order] eqn:Er.
  destruct Hr as (Ho & Hi & Hp).
  erewrite mutate_session_returns;
    [|exact Hs | unfold SessionManager.set_token_order_mutator; by rewrite Er].
  eexists _, _. split; [reflexivity|]. split; [apply lookup_insert_eq|].
  assert (Hsync : order_synced
            (SessionState.set_token_order order
               (SessionState.set_tokens ts s))).
  { split; simpl; [done|]. rewrite <- Hi.
    eapply Permutation_NoDup; [|exact Hnd].
    symmetry. by apply Permutation_map. }
  unfold committed. rewrite (_sync_token_order_fixed _ Hsync). simpl.
  by rewrite <- Ho.
Qed.

Lemma set_token_order_reorders_witness :
  ∃ sessions' s',
    SessionManager.set_token_order 1 "X" order_b_a {[ "X" := session_abc ]}
      = Ok (sessions', s', tt)
    ∧ SessionState.token_order s' = ["b"; "a"; "c"]
    ∧ token_ids (SessionState.tokens s') = ["b"; "a"; "c"].
Proof.
  destruct (set_token_order_reorders 1 "X" order_b_a
              {[ "X" := session_abc ]} session_abc)
    as (sessions' & s' & H & _ & Ho & Hi & _).
  - reflexivity.
  - split; [reflexivity|]. repeat constructor; simpl; intuition discriminate.
  - exists sessions', s'. split; [exact H|]. rewrite Hi, Ho. by split.
Defined.

(** ** Deleting twice *)

Section Delete.
Import SessionManager.

Lemma values_set (d : Dict.t Token.t) k v x :
  In x (Dict.values (Dict.set d k v)) → x = v ∨ In x (Dict.values d).
Proof.
  induction d as [|[k' v'] r IH]; simpl.
  - intros [<-|[]]. by left.
  - destruct (String.eqb k' k); simpl; intros [<-|H]; try tauto.
    all: try (destruct (IH H); tauto).
Qed.

Lemma id_to_token_values tokens x :
  In x (Dict.values (id_to_token tokens)) → In x tokens.
Proof.
  unfold id_to_token.
  assert (H : ∀ l d,
    In x (Dict.values
            (fold_left (λ d token, Dict.set d (Token.id token) token) l d)) →
    In x l ∨ In x (Dict.values d)).
  { induction l as [|t l IH]; intros d; simpl; [tauto|].
    intros [?|[->|?]%values_set]%IH; tauto. }
  intros [?|[]]%H. done.
Qed.

(** [_sync_token_order] brings no token in. *)
Lemma _sync_token_order_tokens s x :
  In x (SessionState.tokens (_sync_token_order s)) →
  In x (SessionState.tokens s).
Proof.
  unfold _sync_token_order.
  destruct (SessionState.tokens s) as [|t r] eqn:E; [simpl; by rewrite E|].
  destruct (id_to_token_dict (t :: r)) as (ts & Hd & Hnd & _).
  rewrite (reorder_pick _ _ _ Hd Hnd). intros Hin.
  cbn [SessionState.tokens SessionState.set_token_order
         SessionState.set_tokens] in Hin.
  apply id_to_token_values. rewrite Hd, dict_of_values.
  eapply Permutation_in; [by apply pick_permutation | done].
Qed.

Lemma without_id_gone k ts : ¬ In k (token_ids (without_id k ts)).
Proof.
  rewrite without_id_ids, filter_In, negb_true_iff, String.eqb_neq. tauto.
Qed.

Lemma delete_token_mutator_fixed k s :
  order_synced s → ¬ In k (token_ids (SessionState.tokens s)) →
  delete_token_mutator k s = Ok (s, tt).
Proof.
  intros [E _] Hk. unfold delete_token_mutator.
  destruct s as [i n m ts order ps u]. simpl in *. subst order.
  change (List.filter _ ts) with (without_id k ts).
  rewrite without_id_absent by done.
  rewrite filter_all; [done|].
  intros j Hj. apply negb_true_iff, String.eqb_neq. by intros ->.
Qed.

(** The second [delete_token] changes the time stamp and nothing else. *)
Lemma delete_token_twice now1 now2 sid k (sessions : store) s :
  sessions !! upper sid = Some s →
  ∃ sessions1 s1 sessions2 s2,
    delete_token now1 sid k sessions = Ok (sessions1, s1, tt)
    ∧ delete_token now2 sid k sessions1 = Ok (sessions2, s2, tt)
    ∧ SessionState.updated_at s1 = now1
    ∧ s2 = SessionState.set_updated_at now2 s1
    ∧ sessions2 = <[upper sid := s2]> sessions1.
Proof.
  intros Hs. unfold delete_token.
  erewrite mutate_session_returns; [|exact Hs|reflexivity].
  set (s1 := committed now1 _). eexists _, s1, _, _.
  split; [reflexivity|].
  assert (Hsync : order_synced s1) by apply committed_synced.
  assert (Hgone : ¬ In k (token_ids (SessionState.tokens s1))).
  { intros (x & Hx & Hin)%in_map_iff.
    apply (_sync_token_order_tokens _ x) in Hin. simpl in Hin.
    apply (without_id_gone k (SessionState.tokens s)).
    apply in_map_iff. exists x. by split. }
  erewrite mutate_session_returns;
    [|apply lookup_insert_eq | by apply delete_token_mutator_fixed].
  split; [reflexivity|]. split; [done|]. split; [|done].
  unfold committed at 1. by rewrite _sync_token_order_fixed.
Qed.

Lemma filter_twice {A} (f : A → bool) l :
  List.filter f (List.filter f l) = List.filter f l.
Proof.
  rewrite filter_filter. apply filter_ext. intros x. by destruct (f x).
Qed.

(** The second [delete_preset] changes the time stamp and nothing
    else. *)
Lemma delete_preset_twice now1 now2 sid k (sessions : store) s :
  sessions !! upper sid = Some s →
  ∃ sessions1 s1 sessions2 s2,
    delete_preset now1 sid k sessions = Ok (sessions1, s1, tt)
    ∧ delete_preset now2 sid k sessions1 = Ok (sessions2, s2, tt)
    ∧ SessionState.updated_at s1 = now1
    ∧ s2 = SessionState.set_updated_at now2 s1
    ∧ sessions2 = <[upper sid := s2]> sessions1.
Proof.
  intros Hs. unfold delete_preset.
  erewrite mutate_session_returns; [|exact Hs|reflexivity].
  set (s1 := committed now1 _). eexists _, s1, _, _.
  split; [reflexivity|].
  assert (Hsync : order_synced s1) by apply committed_synced.
  assert (Hfix : delete_preset_mutator k s1 = Ok (s1, tt)).
  { assert (Hp : SessionState.presets s1
                 = List.filter
                     (λ preset, negb (String.eqb (TokenPreset.id preset) k))
                     (SessionState.presets s)).
    { unfold s1, committed. simpl. by rewrite _sync_token_order_presets. }
    unfold delete_preset_mutator. rewrite Hp, filter_twice, <- Hp.
    by destruct s1. }
  erewrite mutate_session_returns; [|apply lookup_insert_eq | exact Hfix].
  split; [reflexivity|]. split; [done|]. split; [|done].
  unfold committed at 1. by rewrite _sync_token_order_fixed.
Qed.
End Delete.

(** C7, as stated, fails: the second delete stamps the session again, so
    the session after it is not the session after the first. *)
Lemma delete_token_twice_differs :
  ∃ sessions1 s1 sessions2 s2,
    SessionManager.delete_token 1 "X" "a" {[ "X" := session_with_a ]}
      = Ok (sessions1, s1, tt)
    ∧ SessionManager.delete_token 2 "X" "a" sessions1 = Ok (sessions2, s2, tt)
    ∧ s2 ≠ s1.
Proof.
  destruct (delete_token_twice 1 2 "X" "a" {[ "X" := session_with_a ]}
              session_with_a)
    as (sessions1 & s1 & sessions2 & s2 & H1 & H2 & Hu & -> & _);
    [reflexivity|].
  eexists sessions1, s1, sessions2, _. split; [exact H1|]. split; [exact H2|].
  intros E. apply (f_equal SessionState.updated_at) in E.
  rewrite Hu in E. discriminate E.
Qed.

(** C7, amended. On an existing session, [delete_token] called twice with
    the same id returns both times, and so does [delete_preset]; the
    second call leaves the session that the first one left but for its
    time stamp, which is the time of the second call, and changes no other
    entry of the store. *)
Theorem delete_twice_restamps now1 now2 sid k
    (sessions : SessionManager.store) :
  is_Some (sessions !! upper sid) →
  (∃ sessions1 s1 sessions2 s2,
     SessionManager.delete_token now1 sid k sessions = Ok (sessions1, s1, tt)
     ∧ SessionManager.delete_token now2 sid k sessions1 = Ok (sessions2, s2, tt)
     ∧ s2 = SessionState.set_updated_at now2 s1
     ∧ sessions2 = <[upper sid := s2]> sessions1)
  ∧ (∃ sessions1 s1 sessions2 s2,
       SessionManager.delete_preset now1 sid k sessions = Ok (sessions1, s1, tt)
       ∧ SessionManager.delete_preset now2 sid k sessions1
         = Ok (sessions2, s2, tt)
       ∧ s2 = SessionState.set_updated_at now2 s1
       ∧ sessions2 = <[upper sid := s2]> sessions1).
Proof.
  intros [s Hs]. split.
  - destruct (delete_token_twice now1 now2 sid k sessions s Hs)
      as (sessions1 & s1 & sessions2 & s2 & H1 & H2 & _ & E1 & E2).
    by exists sessions1, s1, sessions2, s2.
  - destruct (delete_preset_twice now1 now2 sid k sessions s Hs)
      as (sessions1 & s1 & sessions2 & s2 & H1 & H2 & _ & E1 & E2).
    by exists sessions1, s1, sessions2, s2.
Qed.

Lemma delete_twice_restamps_witness :
  is_Some (({[ "X" := session_with_a ]} : SessionManager.store) !! "X")
  ∧ ∃ sessions1 s1 sessions2 s2,
      SessionManager.delete_token 1 "X" "a" {[ "X" := session_with_a ]}
        = Ok (sessions1, s1, tt)
      ∧ SessionManager.delete_token 2 "X" "a" sessions1 = Ok (sessions2, s2, tt)
      ∧ s2 = SessionState.set_updated_at 2 s1.
Proof.
  assert (H : is_Some (({[ "X" := session_with_a ]} : SessionManager.store)
                         !! upper "X")) by (by eexists).
  split; [exact H|].
  destruct (delete_twice_restamps 1 2 "X" "a" _ H)
    as [(sessions1 & s1 & sessions2 & s2 & H1 & H2 & E & _) _].
  by exists sessions1, s1, sessions2, s2.
Defined.

(** ** The invariants of the store *)

Section StoreInvariant.
Import SessionManager.

Lemma reorder_tokens tokens wanted x :
  In x (fst (reorder tokens wanted)) → In x tokens.
Proof.
  destruct (id_to_token_dict tokens) as (ts & Hd & Hnd & _).
  rewrite (reorder_pick _ _ _ Hd Hnd). intros Hin.
  apply id_to_token_values. rewrite Hd, dict_of_values.
  eapply Permutation_in; [by apply pick_permutation | done].
Qed.

Lemma committed_tokens now s x :
  In x (SessionState.tokens (committed now s)) → In x (SessionState.tokens s).
Proof. apply _sync_token_order_tokens. Qed.

Lemma update_first_token_unit tid payload tokens tokens' token' x :
  update_first_token tid payload tokens = Ok (tokens', token') →
  (∀ t, In t tokens →
     in_range PyFloat.f0_0 PyFloat.f1_0 (Token.x t) = true
     ∧ in_range PyFloat.f0_0 PyFloat.f1_0 (Token.y t) = true) →
  In x tokens' →
  in_range PyFloat.f0_0 PyFloat.f1_0 (Token.x x) = true
  ∧ in_range PyFloat.f0_0 PyFloat.f1_0 (Token.y x) = true.
Proof.
  revert tokens'. induction tokens as [|t r IH]; intros tokens'; simpl;
    [done|].
  destruct (String.eqb (Token.id t) tid).
  - destruct (update_token_fields payload t) as [t'|] eqn:Hu; [|done].
    simpl. intros [= <- <-] Hall [<-|Hin].
    + destruct (Hall t) as [Hx Hy]; [by left|].
      by apply (update_token_fields_unit payload t).
    + apply Hall. by right.
  - destruct (update_first_token tid payload r) as [[r' b]|] eqn:Hr; [|done].
    simpl. intros [= <- <-] Hall [<-|Hin].
    + apply Hall. by left.
    + apply (IH r'); [done | | done]. intros t' Ht'. apply Hall. by right.
Qed.

(** Every mutate-family operation keeps the tokens of the session in
    the unit square. *)
Lemma run_tokens_in_unit m now sid (sessions sessions' : store) s s' :
  sessions !! upper sid = Some s → tokens_in_unit s →
  run m now sid sessions = Ok (sessions', s') →
  tokens_in_unit s'.
Proof.
  intros Hs Hunit Hrun x Hx.
  destruct m; simpl in Hrun; apply stored_inv in Hrun as [a Hrun];
    apply mutate_session_inv in Hrun as (s0 & s1 & Hs0 & Hm & -> & _);
    rewrite Hs in Hs0; injection Hs0 as <-;
    apply committed_tokens in Hx.
  - injection Hm as <- _. simpl in Hx.
    apply in_app_or in Hx as [Hx|[<-|[]]]; [by apply Hunit|].
    apply new_token_unit.
  - destruct (update_first_token token_id payload (SessionState.tokens s))
      as [[ts t']|] eqn:Hu; [|done].
    injection Hm as <- _. simpl in Hx.
    by apply (update_first_token_unit _ _ _ _ _ x Hu).
  - injection Hm as <-. simpl in Hx. apply filter_In in Hx as [Hx _].
    by apply Hunit.
  - unfold set_token_order_mutator in Hm.
    destruct (reorder (SessionState.tokens s)
                (TokenOrderUpdateRequest.order payload))
      as [ts order] eqn:Er.
    injection Hm as <-. simpl in Hx. apply Hunit.
    apply (reorder_tokens _ (TokenOrderUpdateRequest.order payload)).
    by rewrite Er.
  - injection Hm as <-. by apply Hunit.
  - destruct (normalize_view view) as [v|]; [|done].
    injection Hm as <-. by apply Hunit.
  - injection Hm as <-. by apply Hunit.
  - injection Hm as <-. by apply Hunit.
  - injection Hm as <- _. by apply Hunit.
  - destruct (update_first_preset preset_id payload (SessionState.presets s))
      as [[ps p']|]; [|done].
    injection Hm as <- _. by apply Hunit.
  - injection Hm as <-. by apply Hunit.
Qed.

(** The store that a mutate-family operation leaves differs from the
    store it found at the session's key only. *)
Lemma run_store m now sid (sessions sessions' : store) s' :
  run m now sid sessions = Ok (sessions', s') →
  sessions' = <[upper sid := s']> sessions.
Proof.
  destruct m; simpl; intros [a H]%stored_inv;
    by apply mutate_session_inv in H as (? & ? & _ & _ & _ & ->).
Qed.

Lemma run_invariant m now sid (sessions sessions' : store) s' :
  store_invariant sessions →
  run m now sid sessions = Ok (sessions', s') →
  store_invariant sessions'.
Proof.
  intros Hinv Hrun k s Hk.
  rewrite (run_store _ _ _ _ _ _ Hrun) in Hk.
  destruct (decide (upper sid = k)) as [<-|Hne].
  - rewrite lookup_insert_eq in Hk. injection Hk as <-. split.
    + by apply run_synced in Hrun as [? _].
    + destruct (sessions !! upper sid) as [s0|] eqn:Hs0.
      * eapply run_tokens_in_unit; [exact Hs0 | | exact Hrun].
        by apply (Hinv _ _ Hs0).
      * destruct m; simpl in Hrun; apply stored_inv in Hrun as [a Hrun];
          apply mutate_session_inv in Hrun as (? & ? & Hs1 & _);
          by rewrite Hs0 in Hs1.
  - rewrite lookup_insert_ne in Hk by done. exact (Hinv k s Hk).
Qed.

Lemma create_session_invariant u1 u2 now payload
    (sessions sessions' : store) s' :
  store_invariant sessions →
  create_session u1 u2 now payload sessions = Ok (sessions', s') →
  store_invariant sessions'.
Proof.
  intros Hinv. unfold create_session.
  destruct (sessions !! _) eqn:E; [done|]. intros [= <- <-] k s Hk.
  apply lookup_insert_Some in Hk as [[_ <-]|[_ Hk]]; [|exact (Hinv k s Hk)].
  split; [split; [done | constructor] | by intros t []].
Qed.

Lemma empty_store_invariant : store_invariant ∅.
Proof. intros k s Hk. by rewrite lookup_empty in Hk. Qed.
End StoreInvariant.


(** * Further properties of the code *)

(** ** The store after any sequence of requests *)

Section Reachable.
Import SessionManager.

Lemma _sync_token_order_id s :
  SessionState.id (_sync_token_order s) = SessionState.id s.
Proof.
  unfold _sync_token_order. destruct (SessionState.tokens s); [done|].
  by destruct (reorder _ _).
Qed.

Lemma _sync_token_order_name s :
  SessionState.name (_sync_token_order s) = SessionState.name s.
Proof.
  unfold _sync_token_order. destruct (SessionState.tokens s); [done|].
  by destruct (reorder _ _).
Qed.

(** No operation changes the id or the name of the session. *)
Lemma run_id m now sid (sessions sessions' : store) s s' :
  sessions !! upper sid = Some s →
  run m now sid sessions = Ok (sessions', s') →
  SessionState.id s' = SessionState.id s
  ∧ SessionState.name s' = SessionState.name s.
Proof.
  intros Hs Hrun.
  destruct m; simpl in Hrun; apply stored_inv in Hrun as [a Hrun];
    apply mutate_session_inv in Hrun as (s0 & s1 & Hs0 & Hm & -> & _);
    rewrite Hs in Hs0; injection Hs0 as <-; unfold committed; simpl;
    rewrite _sync_token_order_id, _sync_token_order_name.
  - by injection Hm as <- _.
  - destruct (update_first_token _ _ _) as [[ts t']|]; [|done].
    by injection Hm as <- _.
  - by injection Hm as <-.
  - unfold set_token_order_mutator in Hm. destruct (reorder _ _).
    by injection Hm as <-.
  - by injection Hm as <-.
  - destruct (normalize_view view) as [v|]; [|done]. by injection Hm as <-.
  - by injection Hm as <-.
  - by injection Hm as <-.
  - by injection Hm as <- _.
  - destruct (update_first_preset _ _ _) as [[ps p']|]; [|done].
    by injection Hm as <- _.
  - by injection Hm as <-.
Qed.

Lemma run_keys m now sid (sessions sessions' : store) s' :
  keys_canonical sessions →
  run m now sid sessions = Ok (sessions', s') →
  keys_canonical sessions'.
Proof.
  intros Hinv Hrun k s Hk.
  pose proof (run_store _ _ _ _ _ _ Hrun) as ->.
  apply lookup_insert_Some in Hk as [[<- <-]|[_ Hk]]; [|exact (Hinv k s Hk)].
  destruct (sessions !! upper sid) as [s0|] eqn:Hs0.
  - destruct (run_id _ _ _ _ _ _ _ Hs0 Hrun) as [-> _]. exact (Hinv _ _ Hs0).
  - destruct m; simpl in Hrun; apply stored_inv in Hrun as [a Hrun];
      apply mutate_session_inv in Hrun as (? & ? & Hs1 & _);
      by rewrite Hs0 in Hs1.
Qed.

Lemma create_session_keys u1 u2 now payload (sessions sessions' : store) s' :
  keys_canonical sessions →
  create_session u1 u2 now payload sessions = Ok (sessions', s') →
  keys_canonical sessions'.
Proof.
  intros Hinv. unfold create_session.
  destruct (sessions !! _) eqn:E; [done|]. intros [= <- <-] k s Hk.
  apply lookup_insert_Some in Hk as [[<- <-]|[_ Hk]]; [|exact (Hinv k s Hk)].
  split; [done | apply upper_idem].
Qed.

Lemma serve_invariant sessions c :
  store_invariant sessions ∧ keys_canonical sessions →
  store_invariant (serve sessions c) ∧ keys_canonical (serve sessions c).
Proof.
  intros [Hi Hk]. destruct c as [now [u1 u2 payload|sid m]]; simpl.
  - destruct (create_session u1 u2 now payload sessions) as [[s1 x]|] eqn:E;
      simpl; [|done].
    split; [by eapply create_session_invariant | by eapply create_session_keys].
  - destruct (run m now sid sessions) as [[s1 x]|] eqn:E; simpl; [|done].
    split; [by eapply run_invariant | by eapply run_keys].
Qed.
End Reachable.

(** X1. Whatever requests the store has served since it was built, and
    whatever they carried (NaN coordinates, ids in any case, generated ids
    that collide), every session it holds is stored under its own id, in
    upper case; the session's order list is the list of its tokens' ids,
    without a repetition; and the coordinates of its tokens lie in
    [[0, 1]]. *)
Theorem served_store_invariants (cs : list (Z * Command)) k s :
  serve_all cs !! k = Some s →
  SessionState.id s = k
  ∧ is_upper k
  ∧ order_synced s
  ∧ tokens_in_unit s.
Proof.
  unfold serve_all.
  assert (H : ∀ sessions,
    store_invariant sessions ∧ keys_canonical sessions →
    store_invariant (fold_left serve cs sessions)
    ∧ keys_canonical (fold_left serve cs sessions)).
  { induction cs as [|c cs IH]; intros sessions Hs; simpl; [done|].
    by apply IH, serve_invariant. }
  destruct (H ∅) as [Hi Hk].
  { split; [apply empty_store_invariant|].
    intros k' s' Hk'. by rewrite lookup_empty in Hk'. }
  intros Hl. destruct (Hi _ _ Hl), (Hk _ _ Hl). done.
Qed.

Lemma served_store_invariants_witness :
  ∃ s,
    serve_all two_requests !! "ABC" = Some s
    ∧ SessionState.id s = "ABC"
    ∧ SessionState.token_order s = ["t1"]
    ∧ tokens_in_unit s.
Proof.
  destruct (serve_all two_requests !! "ABC") as [s|] eqn:H; [|discriminate H].
  exists s. split; [reflexivity|].
  destruct (served_store_invariants two_requests "ABC" s H)
    as (Hid & _ & _ & Hunit).
  split; [exact Hid|]. split; [|exact Hunit]. by injection H as <-.
Defined.

(** ** Errors *)

(** X2. Every mutate-family operation on an id that names no session
    raises the 404 error "Session not found"; the mutator is not run. *)
Theorem mutation_on_missing_session m now sid
    (sessions : SessionManager.store) :
  sessions !! upper sid = None →
  run m now sid sessions = Raise SessionManager.session_not_found.
Proof.
  intros Hs. destruct m; simpl;
    unfold SessionManager.add_token, SessionManager.update_token,
      SessionManager.delete_token, SessionManager.set_token_order,
      SessionManager.set_warp, SessionManager.set_map_view,
      SessionManager.set_map_url, SessionManager.set_map_image,
      SessionManager.add_preset, SessionManager.update_preset,
      SessionManager.delete_preset, SessionManager.mutate_session;
    by rewrite Hs.
Qed.

Lemma mutation_on_missing_session_witness :
  (∅ : SessionManager.store) !! upper "x" = None
  ∧ run (DeleteToken "a") 1 "x" ∅ = Raise SessionManager.session_not_found.
Proof.
  split; [apply lookup_empty|].
  apply mutation_on_missing_session, lookup_empty.
Defined.

Section NotFound.
Import SessionManager.

Lemma update_first_token_missing tid payload tokens :
  find_token tid tokens = None →
  update_first_token tid payload tokens = Raise token_not_found.
Proof.
  unfold find_token. induction tokens as [|t r IH]; simpl; [done|].
  destruct (String.eqb (Token.id t) tid); [done|].
  intros H. by rewrite (IH H).
Qed.

Lemma update_first_preset_missing pid payload presets :
  find_preset pid presets = None →
  update_first_preset pid payload presets = Raise preset_not_found.
Proof.
  unfold find_preset. induction presets as [|t r IH]; simpl; [done|].
  destruct (String.eqb (TokenPreset.id t) pid); [done|].
  intros H. by rewrite (IH H).
Qed.
End NotFound.

(** X3. [update_token] with an id that no token of the session has raises
    the 404 error "Token not found" and stores nothing: the session keeps
    its tokens and its time stamp. *)
Theorem update_token_missing_token now sid tid payload
    (sessions : SessionManager.store) s :
  sessions !! upper sid = Some s →
  find_token tid (SessionState.tokens s) = None →
  let r := SessionManager.update_token now sid tid payload sessions in
  r = Raise SessionManager.token_not_found
  ∧ store_after (stored r) sessions = sessions.
Proof.
  intros Hs Hf r. assert (Hr : r = Raise SessionManager.token_not_found).
  { unfold r, SessionManager.update_token, SessionManager.mutate_session.
    rewrite Hs. by rewrite update_first_token_missing. }
  by rewrite Hr.
Qed.

Lemma update_token_missing_token_witness :
  ({[ "X" := session_with_a ]} : SessionManager.store) !! upper "x"
    = Some session_with_a
  ∧ find_token "b" (SessionState.tokens session_with_a) = None
  ∧ SessionManager.update_token 1 "x" "b" TokenUpdateRequest.empty
      {[ "X" := session_with_a ]} = Raise SessionManager.token_not_found.
Proof.
  split; [reflexivity|]. split; [reflexivity|].
  apply (update_token_missing_token 1 "x" "b" TokenUpdateRequest.empty
           {[ "X" := session_with_a ]} session_with_a); reflexivity.
Defined.

(** X4. [update_preset] with an id that no preset of the session has
    raises the 404 error "Preset not found" and stores nothing. *)
Theorem update_preset_missing_preset now sid pid payload
    (sessions : SessionManager.store) s :
  sessions !! upper sid = Some s →
  find_preset pid (SessionState.presets s) = None →
  let r := SessionManager.update_preset now sid pid payload sessions in
  r = Raise SessionManager.preset_not_found
  ∧ store_after (stored r) sessions = sessions.
Proof.
  intros Hs Hf r. assert (Hr : r = Raise SessionManager.preset_not_found).
  { unfold r, SessionManager.update_preset, SessionManager.mutate_session.
    rewrite Hs. by rewrite update_first_preset_missing. }
  by rewrite Hr.
Qed.

Lemma update_preset_missing_preset_witness :
  ({[ "X" := session_with_a ]} : SessionManager.store) !! upper "x"
    = Some session_with_a
  ∧ find_preset "p" (SessionState.presets session_with_a) = None
  ∧ SessionManager.update_preset 1 "x" "p"
      (PresetUpdateRequest.mk None None None None None)
      {[ "X" := session_with_a ]} = Raise SessionManager.preset_not_found.
Proof.
  split; [reflexivity|]. split; [reflexivity|].
  apply (update_preset_missing_preset 1 "x" "p"
           (PresetUpdateRequest.mk None None None None None)
           {[ "X" := session_with_a ]} session_with_a); reflexivity.
Defined.

(** ** Creating sessions *)

(** X5. A create that returns has taken an id that was free, stores the
    new session under it and keeps every session the store held; the new
    session has no token, no preset and no image, the default warp and the
    default view. *)
Theorem create_session_keeps_sessions u1 u2 now payload
    (sessions sessions' : SessionManager.store) s' :
  SessionManager.create_session u1 u2 now payload sessions = Ok (sessions', s') →
  sessions !! SessionState.id s' = None
  ∧ sessions' = <[SessionState.id s' := s']> sessions
  ∧ (∀ k s, sessions !! k = Some s → sessions' !! k = Some s)
  ∧ s' = SessionState.init (SessionState.id s')
           (SessionCreateRequest.name payload) now.
Proof.
  unfold SessionManager.create_session.
  destruct (sessions !! _) eqn:E; [done|]. intros [= <- <-]. simpl.
  split; [done|]. split; [done|]. split; [|done].
  intros k s Hk. rewrite lookup_insert_ne; [done|]. intros <-.
  by rewrite E in Hk.
Qed.

Lemma create_session_keeps_sessions_witness :
  ∃ sessions' s',
    SessionManager.create_session "" "" 5
      (SessionCreateRequest.mk (Some "table") (Some "y"))
      {[ "X" := session_with_a ]} = Ok (sessions', s')
    ∧ sessions' !! "X" = Some session_with_a
    ∧ SessionState.tokens s' = [].
Proof.
  destruct (SessionManager.create_session "" "" 5
              (SessionCreateRequest.mk (Some "table") (Some "y"))
              {[ "X" := session_with_a ]}) as [[sessions' s']|] eqn:H;
    [|discriminate H].
  exists sessions', s'. split; [reflexivity|].
  destruct (create_session_keeps_sessions _ _ _ _ _ _ _ H)
    as (_ & _ & Hkeep & Hinit).
  split; [by apply Hkeep | by rewrite Hinit].
Defined.

Section Padding.

Lemma upper_length s : String.length (upper s) = String.length s.
Proof. induction s as [|c r IH]; simpl; [done|]. by rewrite IH. Qed.

Lemma lstrip_length s :
  (String.length (lstrip s) ≤ String.length s)%nat
  ∧ (String.length (lstrip s) = String.length s → lstrip s = s).
Proof.
  induction s as [|c r [IH1 IH2]]; simpl; [done|].
  destruct (is_space c); simpl; [|done]. split; [lia|]. lia.
Qed.

Lemma rstrip_length s :
  (String.length (rstrip s) ≤ String.length s)%nat
  ∧ (String.length (rstrip s) = String.length s → rstrip s = s).
Proof.
  induction s as [|c r [IH1 IH2]]; simpl; [done|].
  destruct (rstrip r) as [|c' r'] eqn:E.
  - destruct (is_space c); simpl in *; [split; [lia | lia]|].
    split; [lia|]. intros H. destruct r; [done | simpl in H; lia].
  - simpl in *. split; [lia|]. intros H. rewrite IH2; [done | lia].
Qed.

(** Only a string that has no whitespace at either end is stripped to a
    string of its own length. *)
Lemma strip_length s :
  String.length (strip s) = String.length s → strip s = s.
Proof.
  unfold strip. intros H.
  destruct (lstrip_length s) as [Hl1 Hl2].
  destruct (rstrip_length (lstrip s)) as [Hr1 Hr2].
  rewrite Hr2 by lia. apply Hl2. lia.
Qed.

Lemma upper_strip_differs d : strip d ≠ d → upper d ≠ upper (strip d).
Proof.
  intros Hne E. apply Hne, strip_length.
  by rewrite <- (upper_length (strip d)), <- E, upper_length.
Qed.
End Padding.

(** X6. [create_session] strips the desired id and [require_session] does
    not: a session created under an id with whitespace at either end is
    found under the stripped id, and looking it up under the id as it was
    given raises the 404 error "Session not found". *)
Theorem create_session_padded_id u1 u2 now name d
    (sessions : SessionManager.store) :
  strip d ≠ "" →
  strip d ≠ d →
  sessions !! upper (strip d) = None →
  sessions !! upper d = None →
  ∃ sessions' s',
    SessionManager.create_session u1 u2 now
      (SessionCreateRequest.mk name (Some d)) sessions = Ok (sessions', s')
    ∧ SessionManager.require_session (strip d) sessions' = Ok s'
    ∧ SessionManager.require_session d sessions'
      = Raise SessionManager.session_not_found.
Proof.
  intros Hd Hpad Hfree Hfree'. eexists _, _.
  rewrite create_session_with_id, Hfree by done. simpl.
  split; [reflexivity|]. unfold SessionManager.require_session. split.
  - by rewrite lookup_insert_eq.
  - rewrite lookup_insert_ne, Hfree'; [done|].
    intros E. by apply (upper_strip_differs d).
Qed.

Lemma create_session_padded_id_witness :
  ∃ sessions' s',
    SessionManager.create_session "" "" 0
      (SessionCreateRequest.mk None (Some " abc ")) ∅ = Ok (sessions', s')
    ∧ SessionState.id s' = "ABC"
    ∧ SessionManager.require_session " abc " sessions'
      = Raise SessionManager.session_not_found.
Proof.
  destruct (create_session_padded_id "" "" 0 None " abc " ∅)
    as (sessions' & s' & H & Hok & Hfail);
    [discriminate | discriminate | apply lookup_empty | apply lookup_empty |].
  exists sessions', s'. split; [exact H|]. split; [|exact Hfail].
  by injection H as _ <-.
Defined.

(** ** Updating a token *)

Section UpdateOne.
Import SessionManager.

Lemma replace_absent (tid : string) (t' : Token.t) ts :
  ¬ In tid (token_ids ts) →
  List.map (λ t, if String.eqb (Token.id t) tid then t' else t) ts = ts.
Proof.
  induction ts as [|t r IH]; simpl; [done|]. intros H.
  destruct (String.eqb_spec (Token.id t) tid) as [E|E].
  - destruct H. by left.
  - rewrite IH; [done|]. intros ?. apply H. by right.
Qed.

(** With distinct ids, the loop of [update_token] changes the token with
    the id and no other, and no id. *)
Lemma update_first_token_replaces tid payload ts ts' t' :
  List.NoDup (token_ids ts) →
  update_first_token tid payload ts = Ok (ts', t') →
  ts' = List.map (λ t, if String.eqb (Token.id t) tid then t' else t) ts
  ∧ token_ids ts' = token_ids ts.
Proof.
  revert ts'. induction ts as [|t r IH]; intros ts'; simpl; [done|].
  intros [Hnotin Hnd]%List.NoDup_cons_iff.
  destruct (String.eqb_spec (Token.id t) tid) as [E|E].
  - destruct (update_token_fields_returns payload t) as (t1 & Hu & Hid & _).
    rewrite Hu. simpl. intros [= <- <-].
    rewrite replace_absent by by rewrite <- E.
    split; [done|]. simpl. by rewrite Hid.
  - destruct (update_first_token tid payload r) as [[r' b]|] eqn:Hr; [|done].
    simpl. intros [= <- <-]. destruct (IH r' Hnd eq_refl) as [-> Hids].
    split; [done|]. simpl. by rewrite Hids.
Qed.

(** What [mutate_session] stores when the mutator leaves the order list in
    step with the tokens. *)
Lemma mutate_session_synced_returns {A} now sid
    (mutator : SessionState.t → Result (SessionState.t * A))
    (sessions : store) s s1 a :
  sessions !! upper sid = Some s →
  mutator s = Ok (s1, a) →
  order_synced s1 →
  mutate_session now sid mutator sessions =
    Ok (<[upper sid := SessionState.set_updated_at now s1]> sessions,
        SessionState.set_updated_at now s1, a).
Proof.
  intros Hs Hm Hsync. rewrite (mutate_session_returns _ _ _ _ _ _ _ Hs Hm).
  unfold committed. by rewrite _sync_token_order_fixed.
Qed.
End UpdateOne.

(** X7. On a session whose order list is in step with its tokens,
    [update_token] changes the token with the id and nothing else of the
    session but its time stamp: the other tokens, the order list, the
    presets and the map are as they were, and the token keeps its id. *)
Theorem update_token_changes_one_token now sid tid payload
    (sessions : SessionManager.store) s token :
  sessions !! upper sid = Some s →
  order_synced s →
  find_token tid (SessionState.tokens s) = Some token →
  ∃ sessions' s' token',
    SessionManager.update_token now sid tid payload sessions
      = Ok (sessions', s', token')
    ∧ Token.id token' = tid
    ∧ s' = SessionState.set_updated_at now
             (SessionState.set_tokens
                (List.map
                   (λ t, if String.eqb (Token.id t) tid then token' else t)
                   (SessionState.tokens s)) s).
Proof.
  intros Hs [E Hnd] Hf. rewrite E in Hnd.
  destruct (update_token_fields_returns payload token) as (token' & Hu & Hid & _).
  destruct (update_first_token_found _ _ _ _ _ Hf Hu) as [ts' Ht].
  destruct (update_first_token_replaces _ _ _ _ _ Hnd Ht) as [-> Hids].
  eexists _, _, token'. unfold SessionManager.update_token.
  erewrite mutate_session_synced_returns; [|exact Hs|by rewrite Ht|].
  - split; [reflexivity|]. split; [|done].
    rewrite Hid. by apply find_token_id in Hf.
  - split; simpl; [by rewrite Hids | by rewrite E].
Qed.

Lemma update_token_changes_one_token_witness :
  ∃ sessions' s' token',
    SessionManager.update_token 7 "x" "b"
      (TokenUpdateRequest.mk (Some "Bob") None None (Some PyFloat.f8_0) None
         None None None)
      {[ "X" := session_abc ]} = Ok (sessions', s', token')
    ∧ token_ids (SessionState.tokens s') = ["a"; "b"; "c"]
    ∧ Token.name token' = "Bob"
    ∧ Token.x token' = PyFloat.f1_0
    ∧ SessionState.updated_at s' = 7.
Proof.
  destruct (update_token_changes_one_token 7 "x" "b"
              (TokenUpdateRequest.mk (Some "Bob") None None (Some PyFloat.f8_0)
                 None None None None)
              {[ "X" := session_abc ]} session_abc (token_named "b"))
    as (sessions' & s' & token' & H & _ & Hs').
  - reflexivity.
  - split; [reflexivity|]. repeat constructor; simpl; intuition discriminate.
  - reflexivity.
  - exists sessions', s', token'. split; [exact H|].
    injection H as _ _ <-. rewrite Hs'. repeat split.
Defined.

(** X8. No update clears a value: a token that has notes, hit points,
    maximal hit points or an initiative still has one after any
    [update_token], since a null in the update means "keep". *)
Theorem update_token_never_clears now sid tid payload
    (sessions sessions' : SessionManager.store) s s' token token' :
  sessions !! upper sid = Some s →
  find_token tid (SessionState.tokens s) = Some token →
  SessionManager.update_token now sid tid payload sessions
    = Ok (sessions', s', token') →
  (is_Some (Token.notes token) → is_Some (Token.notes token'))
  ∧ (is_Some (TokenStats.hp (Token.stats token)) →
       is_Some (TokenStats.hp (Token.stats token')))
  ∧ (is_Some (TokenStats.max_hp (Token.stats token)) →
       is_Some (TokenStats.max_hp (Token.stats token')))
  ∧ (is_Some (TokenStats.initiative (Token.stats token)) →
       is_Some (TokenStats.initiative (Token.stats token'))).
Proof.
  intros Hs Hf H.
  destruct (update_token_returns now sid tid payload sessions s token Hs Hf)
    as (x & y & t' & H' & Hu).
  rewrite H in H'. injection H' as _ _ <-.
  destruct (update_token_fields_returns payload token) as (t & Ht & _ & Hst).
  rewrite Ht in Hu. injection Hu as ->. split.
  - unfold SessionManager.update_token_fields in Ht.
    destruct (TokenUpdateRequest.stats payload) as [upd|];
      [rewrite merge_stats_returns in Ht|];
      simpl in Ht; injection Ht as <-; simpl;
      by destruct (TokenUpdateRequest.notes payload).
  - rewrite Hst. destruct (TokenUpdateRequest.stats payload) as [upd|]; [|done].
    unfold merge_given_not_null, take_not_null. simpl.
    destruct (TokenStats.is_set upd "hp"), (TokenStats.hp upd),
      (TokenStats.is_set upd "max_hp"), (TokenStats.max_hp upd),
      (TokenStats.is_set upd "initiative"), (TokenStats.initiative upd);
      done.
Qed.

Lemma update_token_never_clears_witness :
  ∃ sessions' s' token',
    SessionManager.update_token 1 "X" "a" (update_stats stats_hp_null)
      {[ "X" := session_with_a ]} = Ok (sessions', s', token')
    ∧ is_Some (TokenStats.hp (Token.stats token')).
Proof.
  destruct (SessionManager.update_token 1 "X" "a" (update_stats stats_hp_null)
              {[ "X" := session_with_a ]}) as [[[sessions' s'] token']|] eqn:H;
    [|discriminate H].
  exists sessions', s', token'. split; [reflexivity|].
  refine (proj1 (proj2 (update_token_never_clears 1 "X" "a"
                          (update_stats stats_hp_null)
                          {[ "X" := session_with_a ]} sessions' session_with_a
                          s' token_a token' _ _ H)) _);
    [reflexivity | reflexivity | by eexists].
Defined.

(** ** Adding and deleting *)

Section AddDelete.
Import SessionManager.

Lemma filter_order_ids k ts :
  List.filter (λ i, negb (String.eqb i k)) (token_ids ts)
  = token_ids (without_id k ts).
Proof. symmetry. apply without_id_ids. Qed.

Lemma set_fields_same s :
  SessionState.set_token_order (SessionState.token_order s)
    (SessionState.set_tokens (SessionState.tokens s) s) = s.
Proof. by destruct s. Qed.

Lemma add_token_returns u now sid payload (sessions : store) s :
  sessions !! upper sid = Some s →
  order_synced s →
  ¬ In u (SessionState.token_order s) →
  add_token u now sid payload sessions =
    let s1 :=
      SessionState.set_token_order (SessionState.token_order s ++ [u])
        (SessionState.set_tokens
           (SessionState.tokens s ++ [new_token u payload]) s) in
    Ok (<[upper sid := SessionState.set_updated_at now s1]> sessions,
        SessionState.set_updated_at now s1, new_token u payload).
Proof.
  intros Hs [E Hnd] Hfresh. unfold add_token.
  erewrite mutate_session_synced_returns; [done | exact Hs | done |].
  split; simpl.
  - by rewrite token_ids_app, E.
  - eapply Permutation_NoDup; [apply Permutation_cons_append|].
    by constructor.
Qed.

Lemma delete_token_returns now sid k (sessions : store) s :
  sessions !! upper sid = Some s →
  order_synced s →
  delete_token now sid k sessions =
    let s1 :=
      SessionState.set_token_order
        (List.filter (λ i, negb (String.eqb i k)) (SessionState.token_order s))
        (SessionState.set_tokens (without_id k (SessionState.tokens s)) s) in
    Ok (<[upper sid := SessionState.set_updated_at now s1]> sessions,
        SessionState.set_updated_at now s1, tt).
Proof.
  intros Hs [E Hnd]. unfold delete_token.
  erewrite mutate_session_synced_returns; [done | exact Hs | done |].
  split; simpl.
  - by rewrite E, filter_order_ids.
  - by apply List.NoDup_filter.
Qed.
End AddDelete.

(** X9. On a session whose order list is in step with its tokens,
    [add_token] with a fresh id puts the new token last in the collection
    and its id last in the order list, keeps the tokens that were there in
    their order, and returns the token it stored, whose coordinates are
    the request's clamped to [[0, 1]]. *)
Theorem add_token_appends u now sid payload
    (sessions : SessionManager.store) s :
  sessions !! upper sid = Some s →
  order_synced s →
  ¬ In u (SessionState.token_order s) →
  ∃ sessions' s' token,
    SessionManager.add_token u now sid payload sessions
      = Ok (sessions', s', token)
    ∧ Token.id token = u
    ∧ SessionState.tokens s' = SessionState.tokens s ++ [token]
    ∧ SessionState.token_order s' = SessionState.token_order s ++ [u]
    ∧ in_range PyFloat.f0_0 PyFloat.f1_0 (Token.x token) = true
    ∧ in_range PyFloat.f0_0 PyFloat.f1_0 (Token.y token) = true
    ∧ sessions' !! upper sid = Some s'.
Proof.
  intros Hs Hsync Hfresh. eexists _, _, _.
  rewrite (add_token_returns _ _ _ _ _ _ Hs Hsync Hfresh). simpl.
  split; [reflexivity|]. split; [done|]. split; [done|]. split; [done|].
  split; [apply _clamp_or_default_unit|].
  split; [apply _clamp_or_default_unit | apply lookup_insert_eq].
Qed.

Lemma add_token_appends_witness :
  ∃ sessions' s' token,
    SessionManager.add_token "d" 3 "x" token_request {[ "X" := session_abc ]}
      = Ok (sessions', s', token)
    ∧ SessionState.token_order s' = ["a"; "b"; "c"; "d"]
    ∧ Token.x token = PyFloat.f1_0
    ∧ Token.y token = PyFloat.f0_0.
Proof.
  destruct (add_token_appends "d" 3 "x" token_request
              {[ "X" := session_abc ]} session_abc)
    as (sessions' & s' & token & H & _ & _ & Ho & _).
  - reflexivity.
  - split; [reflexivity|]. repeat constructor; simpl; intuition discriminate.
  - simpl. intuition discriminate.
  - exists sessions', s', token. split; [exact H|]. split; [exact Ho|].
    by injection H as _ _ <-.
Defined.

(** X10. On a session whose order list is in step with its tokens,
    [delete_token] takes out the token with the id, from the collection
    and from the order list, and keeps the others in their order; the id
    is in neither afterwards. *)
Theorem delete_token_removes now sid k
    (sessions : SessionManager.store) s :
  sessions !! upper sid = Some s →
  order_synced s →
  ∃ sessions' s',
    SessionManager.delete_token now sid k sessions = Ok (sessions', s', tt)
    ∧ SessionState.tokens s' = without_id k (SessionState.tokens s)
    ∧ SessionState.token_order s'
      = List.filter (λ i, negb (String.eqb i k)) (SessionState.token_order s)
    ∧ ¬ In k (SessionState.token_order s')
    ∧ find_token k (SessionState.tokens s') = None.
Proof.
  intros Hs Hsync. eexists _, _.
  rewrite (delete_token_returns _ _ _ _ _ Hs Hsync). simpl.
  split; [reflexivity|]. split; [done|]. split; [done|]. split.
  - intros [_ H]%filter_In. by apply negb_true_iff, String.eqb_neq in H.
  - apply find_token_absent, without_id_gone.
Qed.

Lemma delete_token_removes_witness :
  ∃ sessions' s',
    SessionManager.delete_token 4 "x" "b" {[ "X" := session_abc ]}
      = Ok (sessions', s', tt)
    ∧ SessionState.token_order s' = ["a"; "c"]
    ∧ token_ids (SessionState.tokens s') = ["a"; "c"].
Proof.
  destruct (delete_token_removes 4 "x" "b" {[ "X" := session_abc ]} session_abc)
    as (sessions' & s' & H & Ht & Ho & _).
  - reflexivity.
  - split; [reflexivity|]. repeat constructor; simpl; intuition discriminate.
  - exists sessions', s'. split; [exact H|]. by rewrite Ht, Ho.
Defined.

(** X11. Adding a token under a fresh id and then deleting that id gives
    the session back: the tokens, the order list, the presets and the map
    are what they were before the add, and only the time stamp has
    moved. *)
Theorem add_then_delete_token u now1 now2 sid payload
    (sessions : SessionManager.store) s :
  sessions !! upper sid = Some s →
  order_synced s →
  ¬ In u (SessionState.token_order s) →
  ∃ sessions1 s1 token sessions2,
    SessionManager.add_token u now1 sid payload sessions
      = Ok (sessions1, s1, token)
    ∧ SessionManager.delete_token now2 sid (Token.id token) sessions1
      = Ok (sessions2, SessionState.set_updated_at now2 s, tt)
    ∧ sessions2 = <[upper sid := SessionState.set_updated_at now2 s]> sessions.
Proof.
  intros Hs [E Hnd] Hfresh. eexists _, _, _, _.
  rewrite (add_token_returns _ _ _ _ _ _ Hs (conj E Hnd) Hfresh). simpl.
  split; [reflexivity|].
  erewrite delete_token_returns; [|apply lookup_insert_eq|].
  - simpl. rewrite insert_insert_eq.
    assert (Hts : without_id u
                    (SessionState.tokens s
                     ++ [SessionManager.new_token u payload])
                  = SessionState.tokens s).
    { unfold without_id. rewrite List.filter_app. simpl.
      rewrite String.eqb_refl. simpl. rewrite app_nil_r.
      apply without_id_absent. by rewrite <- E. }
    assert (Ho : List.filter (λ i, negb (String.eqb i u))
                   (SessionState.token_order s ++ [u])
                 = SessionState.token_order s).
    { rewrite List.filter_app. simpl. rewrite String.eqb_refl. simpl.
      rewrite app_nil_r. apply filter_all. intros j Hj.
      apply negb_true_iff, String.eqb_neq. by intros ->. }
    rewrite Hts, Ho. by destruct s.
  - split; simpl.
    + by rewrite token_ids_app, E.
    + eapply Permutation_NoDup; [apply Permutation_cons_append|].
      by constructor.
Qed.

Lemma add_then_delete_token_witness :
  ∃ sessions1 s1 token sessions2,
    SessionManager.add_token "d" 3 "x" token_request {[ "X" := session_abc ]}
      = Ok (sessions1, s1, token)
    ∧ SessionManager.delete_token 4 "x" "d" sessions1
      = Ok (sessions2, SessionState.set_updated_at 4 session_abc, tt).
Proof.
  destruct (add_then_delete_token "d" 3 4 "x" token_request
              {[ "X" := session_abc ]} session_abc)
    as (sessions1 & s1 & token & sessions2 & H1 & H2 & _).
  - reflexivity.
  - split; [reflexivity|]. repeat constructor; simpl; intuition discriminate.
  - simpl. intuition discriminate.
  - exists sessions1, s1, token, sessions2. split; [exact H1|].
    injection H1 as _ _ <-. exact H2.
Defined.

(** ** Presets *)

Section Presets.
Import SessionManager.

Lemma committed_presets now s :
  SessionState.presets (committed now s) = SessionState.presets s.
Proof. apply _sync_token_order_presets. Qed.

Lemma update_preset_fields_returns payload preset :
  update_preset_fields payload preset =
    Ok (TokenPreset.mk (TokenPreset.id preset)
          (or_keep (PresetUpdateRequest.name payload) (TokenPreset.name preset))
          (or_keep (PresetUpdateRequest.kind payload) (TokenPreset.kind preset))
          (or_keep (PresetUpdateRequest.color payload) (TokenPreset.color preset))
          match PresetUpdateRequest.stats payload with
          | Some upd => merge_given_not_null (TokenPreset.stats preset) upd
          | None => TokenPreset.stats preset
          end
          match PresetUpdateRequest.notes payload with
          | Some n => Some n
          | None => TokenPreset.notes preset
          end).
Proof.
  unfold update_preset_fields.
  destruct (PresetUpdateRequest.stats payload) as [upd|]; [|done].
  by rewrite merge_stats_returns.
Qed.

Lemma update_first_preset_found pid payload presets preset preset' :
  find_preset pid presets = Some preset →
  update_preset_fields payload preset = Ok preset' →
  ∃ presets',
    update_first_preset pid payload presets = Ok (presets', preset')
    ∧ In preset' presets'.
Proof.
  unfold find_preset. intros Hf Hu.
  induction presets as [|t r IH]; simpl in *; [done|].
  destruct (String.eqb (TokenPreset.id t) pid).
  - injection Hf as ->. rewrite Hu. eexists. split; [done|]. by left.
  - destruct (IH Hf) as (r' & -> & Hin). eexists. split; [done|]. by right.
Qed.

Lemma without_preset_absent k (ps : list TokenPreset.t) :
  ¬ In k (preset_ids ps) →
  List.filter (λ preset, negb (String.eqb (TokenPreset.id preset) k)) ps = ps.
Proof.
  intros H. apply filter_all. intros p Hp.
  apply negb_true_iff, String.eqb_neq. intros E. apply H.
  rewrite <- E. by apply in_map.
Qed.
End Presets.

(** X12. [add_preset] puts the new preset last among the session's
    presets and returns it; deleting its id then, when no other preset had
    that id, leaves the presets as they were before the add. *)
Theorem add_then_delete_preset u now1 now2 sid payload
    (sessions : SessionManager.store) s :
  sessions !! upper sid = Some s →
  ¬ In u (preset_ids (SessionState.presets s)) →
  ∃ sessions1 s1 preset sessions2 s2,
    SessionManager.add_preset u now1 sid payload sessions
      = Ok (sessions1, s1, preset)
    ∧ TokenPreset.id preset = u
    ∧ SessionState.presets s1 = SessionState.presets s ++ [preset]
    ∧ SessionManager.delete_preset now2 sid u sessions1
      = Ok (sessions2, s2, tt)
    ∧ SessionState.presets s2 = SessionState.presets s.
Proof.
  intros Hs Hfresh. eexists _, _, _, _, _.
  unfold SessionManager.add_preset, SessionManager.delete_preset.
  erewrite mutate_session_returns; [|exact Hs|reflexivity].
  split; [reflexivity|]. split; [done|].
  split; [by rewrite committed_presets|].
  erewrite mutate_session_returns; [|apply lookup_insert_eq|reflexivity].
  split; [reflexivity|]. rewrite committed_presets. simpl.
  rewrite _sync_token_order_presets. simpl. rewrite List.filter_app. simpl.
  rewrite String.eqb_refl. simpl. rewrite app_nil_r.
  by apply without_preset_absent.
Qed.

Lemma add_then_delete_preset_witness :
  ∃ sessions1 s1 preset sessions2 s2,
    SessionManager.add_preset "q" 1 "x" preset_request
      {[ "X" := session_with_preset ]} = Ok (sessions1, s1, preset)
    ∧ preset_ids (SessionState.presets s1) = ["p"; "q"]
    ∧ SessionManager.delete_preset 2 "x" "q" sessions1 = Ok (sessions2, s2, tt)
    ∧ preset_ids (SessionState.presets s2) = ["p"].
Proof.
  destruct (add_then_delete_preset "q" 1 2 "x" preset_request
              {[ "X" := session_with_preset ]} session_with_preset)
    as (sessions1 & s1 & preset & sessions2 & s2 & H1 & Hid & Hp1 & H2 & Hp2).
  - reflexivity.
  - simpl. intuition discriminate.
  - exists sessions1, s1, preset, sessions2, s2. split; [exact H1|].
    rewrite Hp1, Hp2. unfold preset_ids. rewrite List.map_app. simpl.
    rewrite Hid. by split.
Defined.

(** X13. [update_preset] on a preset of the session returns the preset
    with its id unchanged, with every field that the update gives, and
    with the stats merged field by field as for a token (a value that is
    not null overwrites, a null or an absent field keeps); the preset it
    returns is among the presets stored. *)
Theorem update_preset_merges now sid pid payload
    (sessions : SessionManager.store) s preset :
  sessions !! upper sid = Some s →
  find_preset pid (SessionState.presets s) = Some preset →
  ∃ sessions' s' preset',
    SessionManager.update_preset now sid pid payload sessions
      = Ok (sessions', s', preset')
    ∧ In preset' (SessionState.presets s')
    ∧ TokenPreset.id preset' = pid
    ∧ TokenPreset.name preset'
      = SessionManager.or_keep (PresetUpdateRequest.name payload)
          (TokenPreset.name preset)
    ∧ TokenPreset.stats preset'
      = match PresetUpdateRequest.stats payload with
        | Some upd => merge_given_not_null (TokenPreset.stats preset) upd
        | None => TokenPreset.stats preset
        end.
Proof.
  intros Hs Hf.
  pose proof (update_preset_fields_returns payload preset) as Hu.
  destruct (update_first_preset_found _ _ _ _ _ Hf Hu) as (ps' & Hp & Hin).
  eexists _, _, _. unfold SessionManager.update_preset.
  erewrite mutate_session_returns; [|exact Hs|by rewrite Hp].
  split; [reflexivity|]. rewrite committed_presets. simpl.
  split; [exact Hin|]. split; [|done].
  apply find_some in Hf as [_ Hid]. by apply String.eqb_eq.
Qed.

Lemma update_preset_merges_witness :
  ∃ sessions' s' preset',
    SessionManager.update_preset 1 "x" "p" (preset_stats stats_hp_5)
      {[ "X" := session_with_preset ]} = Ok (sessions', s', preset')
    ∧ TokenStats.hp (TokenPreset.stats preset') = Some 5
    ∧ TokenStats.max_hp (TokenPreset.stats preset') = Some 20
    ∧ TokenPreset.name preset' = "Goblin".
Proof.
  destruct (update_preset_merges 1 "x" "p" (preset_stats stats_hp_5)
              {[ "X" := session_with_preset ]} session_with_preset
              (TokenPreset.mk "p" "Goblin" npc "#00ff00" stats_10_20 None))
    as (sessions' & s' & preset' & H & _ & _ & Hn & Hst);
    [reflexivity | reflexivity |].
  exists sessions', s', preset'. split; [exact H|].
  rewrite Hst, Hn. by repeat split.
Defined.

(** ** Synchronising and ordering *)

(** X14. [_sync_token_order] is idempotent: a session that has been
    synchronised is left as it is by a second synchronisation, whatever
    the session was before the first. *)
Theorem sync_token_order_idempotent s :
  SessionManager._sync_token_order (SessionManager._sync_token_order s)
  = SessionManager._sync_token_order s.
Proof. apply _sync_token_order_fixed, _sync_token_order_synced. Qed.

Section Repair.
Import SessionManager.

Lemma filter_none {A} (f : A → bool) l :
  (∀ x, In x l → f x = false) → List.filter f l = [].
Proof.
  induction l as [|x l IH]; simpl; intros H; [done|].
  rewrite (H x) by by left. apply IH. intros; apply H; by right.
Qed.

Lemma first_occurrences_from_In seen l i :
  In i (first_occurrences_from seen l) ↔ In i l ∧ ¬ In i seen.
Proof.
  revert seen. induction l as [|j r IH]; intros seen; simpl; [tauto|].
  destruct (mem j seen) eqn:E.
  - apply mem_In in E. rewrite IH. split; [tauto|].
    intros [[->|?] ?]; tauto.
  - apply mem_not_In in E. simpl. rewrite IH. simpl. split.
    + intros [->|[? ?]]; tauto.
    + intros [[->|?] ?]; [tauto|].
      destruct (string_dec j i) as [->|]; tauto.
Qed.

Lemma expected_order_In current desired i :
  In i (expected_order current desired) ↔ In i current.
Proof.
  unfold expected_order, first_occurrences.
  rewrite in_app_iff, first_occurrences_from_In, !filter_In, negb_true_iff,
    mem_In, mem_not_In.
  destruct (in_dec string_dec i desired); simpl; tauto.
Qed.

(** Ordering twice by the same wish is ordering once. *)
Lemma expected_order_twice current desired :
  expected_order (expected_order current desired) desired
  = expected_order current desired.
Proof.
  unfold expected_order at 1 3. f_equal.
  - f_equal. apply filter_ext. intros i.
    destruct (mem i current) eqn:E.
    + apply mem_In. apply expected_order_In. by apply mem_In.
    + apply mem_not_In. rewrite expected_order_In. by apply mem_not_In.
  - unfold expected_order. rewrite List.filter_app.
    rewrite filter_none, filter_all; [done | |].
    + intros i [_ Hi]%filter_In. done.
    + intros i [[Hi _]%filter_In _]%first_occurrences_from_In.
      apply negb_false_iff. by apply mem_In.
Qed.

(** Two lists of tokens with the same tokens and the same ids in the same
    order, without a repeated id, are the same list. *)
Lemma same_ids_same_tokens (l1 l2 : list Token.t) :
  Permutation l1 l2 → token_ids l1 = token_ids l2 →
  List.NoDup (token_ids l1) → l1 = l2.
Proof.
  revert l2. induction l1 as [|a r1 IH]; intros [|b r2] Hp Hids Hnd;
    simpl in *; try done.
  injection Hids as Hid Hids. apply List.NoDup_cons_iff in Hnd as [Hnotin Hnd].
  assert (b = a) as ->.
  { assert (Hb : In b (a :: r1)).
    { eapply Permutation_in; [symmetry; exact Hp | by left]. }
    destruct Hb as [->|Hb]; [done|]. destruct Hnotin.
    rewrite Hid. by apply in_map. }
  f_equal. apply IH; [by eapply Permutation_cons_inv | done | done].
Qed.

Lemma set_token_order_returns now sid payload (sessions : store) s :
  sessions !! upper sid = Some s →
  order_synced s →
  ∃ ts,
    set_token_order now sid payload sessions =
      (let s1 :=
         SessionState.set_token_order
           (expected_order (SessionState.token_order s)
              (TokenOrderUpdateRequest.order payload))
           (SessionState.set_tokens ts s) in
       Ok (<[upper sid := SessionState.set_updated_at now s1]> sessions,
           SessionState.set_updated_at now s1, tt))
    ∧ token_ids ts
      = expected_order (SessionState.token_order s)
          (TokenOrderUpdateRequest.order payload)
    ∧ Permutation ts (SessionState.tokens s).
Proof.
  intros Hs [E Hnd]. rewrite E in Hnd |- *.
  pose proof (reorder_expected (SessionState.tokens s)
                (TokenOrderUpdateRequest.order payload) Hnd) as Hr.
  destruct (reorder (SessionState.tokens s)
              (TokenOrderUpdateRequest.order payload)) as [ts order] eqn:Er.
  destruct Hr as (-> & Hi & Hp). exists ts.
  split; [|by split]. unfold set_token_order.
  erewrite mutate_session_synced_returns;
    [done | exact Hs | unfold set_token_order_mutator; by rewrite Er |].
  split; simpl; [done|]. rewrite <- Hi.
  eapply Permutation_NoDup; [|exact Hnd].
  symmetry. by apply Permutation_map.
Qed.
End Repair.

(** X15. [_sync_token_order] repairs the order list of a session whose
    tokens have distinct ids: the ids of the list that name a token stay,
    in their order and once each, the ids that name none are dropped, and
    the tokens the list does not name come last, in the order they had;
    the tokens are the same ones, reordered to match. *)
Theorem sync_token_order_repairs s :
  List.NoDup (token_ids (SessionState.tokens s)) →
  let s' := SessionManager._sync_token_order s in
  SessionState.token_order s'
    = expected_order (token_ids (SessionState.tokens s))
        (SessionState.token_order s)
  ∧ token_ids (SessionState.tokens s') = SessionState.token_order s'
  ∧ Permutation (SessionState.tokens s') (SessionState.tokens s).
Proof.
  intros Hnd s'. unfold s', SessionManager._sync_token_order.
  destruct (SessionState.tokens s) as [|t r] eqn:E.
  - simpl. rewrite E. split; [|done].
    unfold expected_order, first_occurrences. by rewrite filter_none.
  - pose proof (reorder_expected (t :: r) (SessionState.token_order s) Hnd)
      as Hr.
    destruct (SessionManager.reorder (t :: r) (SessionState.token_order s))
      as [ts order].
    destruct Hr as (Ho & Hi & Hp). simpl. done.
Qed.

Lemma sync_token_order_repairs_witness :
  let s' := SessionManager._sync_token_order session_out_of_sync in
  SessionState.token_order session_out_of_sync = ["a"; "zz"; "a"]
  ∧ SessionState.token_order s' = ["a"]
  ∧ token_ids (SessionState.tokens s') = ["a"].
Proof.
  intros s'. split; [reflexivity|].
  destruct (sync_token_order_repairs session_out_of_sync) as (Ho & Hi & _).
  - repeat constructor. simpl. tauto.
  - fold s' in Ho, Hi. rewrite Hi, Ho. by split.
Defined.

(** X16. [set_token_order] is idempotent: on a session whose order list
    is in step with its tokens, a second call with the same desired order
    changes the time stamp and nothing else. *)
Theorem set_token_order_idempotent now1 now2 sid payload
    (sessions : SessionManager.store) s :
  sessions !! upper sid = Some s →
  order_synced s →
  ∃ sessions1 s1 sessions2,
    SessionManager.set_token_order now1 sid payload sessions
      = Ok (sessions1, s1, tt)
    ∧ SessionManager.set_token_order now2 sid payload sessions1
      = Ok (sessions2, SessionState.set_updated_at now2 s1, tt).
Proof.
  intros Hs Hsync.
  destruct (set_token_order_returns now1 sid payload sessions s Hs Hsync)
    as (ts & H1 & Hids & Hp).
  eexists _, _, _. split; [exact H1|]. cbv zeta.
  set (s1 := SessionState.set_updated_at now1 _).
  assert (Hsync1 : order_synced s1).
  { split; simpl; [done|]. rewrite <- Hids.
    eapply Permutation_NoDup; [symmetry; by apply Permutation_map|].
    destruct Hsync as [E Hnd]. rewrite E in Hnd. exact Hnd. }
  destruct (set_token_order_returns now2 sid payload
              (<[upper sid := s1]> sessions) s1 (lookup_insert_eq _ _ _) Hsync1)
    as (ts2 & H2 & Hids2 & Hp2).
  rewrite H2. cbv zeta. simpl in *. rewrite expected_order_twice in *.
  assert (ts2 = ts) as ->.
  { apply same_ids_same_tokens; [done | by rewrite Hids2, Hids|].
    rewrite Hids2. destruct Hsync1 as [_ Hnd]. exact Hnd. }
  done.
Qed.

Lemma set_token_order_idempotent_witness :
  ∃ sessions1 s1 sessions2,
    SessionManager.set_token_order 1 "X" order_b_a {[ "X" := session_abc ]}
      = Ok (sessions1, s1, tt)
    ∧ SessionManager.set_token_order 2 "X" order_b_a sessions1
      = Ok (sessions2, SessionState.set_updated_at 2 s1, tt)
    ∧ SessionState.token_order s1 = ["b"; "a"; "c"].
Proof.
  destruct (set_token_order_idempotent 1 2 "X" order_b_a
              {[ "X" := session_abc ]} session_abc)
    as (sessions1 & s1 & sessions2 & H1 & H2).
  - reflexivity.
  - split; [reflexivity|]. repeat constructor; simpl; intuition discriminate.
  - exists sessions1, s1, sessions2. split; [exact H1|]. split; [exact H2|].
    by injection H1 as _ <-.
Defined.

(** ** The map *)

Section Zoom.

(** A float between the bounds that is not below the upper bound is the
    upper bound. *)
Lemma le_not_lt_finite a s m e :
  PyFloat.le a (S754_finite s m e) = true →
  PyFloat.lt a (S754_finite s m e) = false →
  a = S754_finite s m e.
Proof.
  unfold PyFloat.le, PyFloat.lt, SFleb, SFltb.
  destruct a as [[]|[]| |[] ma ea], s; simpl; try done;
    destruct (Z.compare_spec ea e); try done; subst;
    change (Pos.compare_cont Eq ma m) with (Pos.compare ma m);
    destruct (Pos.compare_spec ma m); try done; by subst.
Qed.

Lemma le_not_gt_finite a s m e :
  PyFloat.le (S754_finite s m e) a = true →
  PyFloat.lt (S754_finite s m e) a = false →
  a = S754_finite s m e.
Proof.
  unfold PyFloat.le, PyFloat.lt, SFleb, SFltb.
  destruct a as [[]|[]| |[] ma ea], s; simpl; try done;
    destruct (Z.compare_spec e ea); try done; subst;
    change (Pos.compare_cont Eq m ma) with (Pos.compare m ma);
    destruct (Pos.compare_spec m ma); try done; by subst.
Qed.

(** The clamp keeps a value that is between finite bounds. *)
Lemma clamp_keeps s1 m1 e1 s2 m2 e2 v :
  in_range (S754_finite s1 m1 e1) (S754_finite s2 m2 e2) v = true →
  PyFloat.max (S754_finite s1 m1 e1) (PyFloat.min (S754_finite s2 m2 e2) v)
  = v.
Proof.
  intros [Hlo Hhi]%andb_true_iff. unfold PyFloat.max, PyFloat.min.
  change PyFloat.gt with (λ a b, PyFloat.lt b a). cbv beta.
  destruct (PyFloat.lt v (S754_finite s2 m2 e2)) eqn:E1.
  - destruct (PyFloat.lt (S754_finite s1 m1 e1) v) eqn:E2; [done|].
    symmetry. by apply le_not_gt_finite.
  - pose proof (le_not_lt_finite _ _ _ _ Hhi E1) as ->.
    destruct (PyFloat.lt (S754_finite s1 m1 e1) (S754_finite s2 m2 e2))
      eqn:E2; [done|].
    by apply le_not_lt_finite.
Qed.

(** Clamping twice is clamping once, whatever the bounds and the value. *)
Lemma clamp_twice lo hi v :
  PyFloat.max lo (PyFloat.min hi (PyFloat.max lo (PyFloat.min hi v)))
  = PyFloat.max lo (PyFloat.min hi v).
Proof.
  unfold PyFloat.max, PyFloat.min.
  change PyFloat.gt with (λ a b, PyFloat.lt b a). cbv beta.
  destruct (PyFloat.lt v hi) eqn:E1.
  - destruct (PyFloat.lt lo v) eqn:E2.
    + by rewrite E1, E2.
    + destruct (PyFloat.lt lo hi) eqn:E3.
      * destruct (PyFloat.lt lo lo); done.
      * by rewrite E3.
  - destruct (PyFloat.lt lo hi) eqn:E3.
    + destruct (PyFloat.lt hi hi) eqn:E4; by rewrite E3.
    + rewrite E3. by rewrite E3.
Qed.
End Zoom.

(** X17. On an existing session [set_map_view] returns for every view,
    a NaN or infinite zoom included, and the zoom it stores lies in
    [[0.2, 8.0]]; a submitted zoom that lies in [[0.2, 8.0]] is stored as
    it is. *)
Theorem set_map_view_zoom now sid view (sessions : SessionManager.store) :
  is_Some (sessions !! upper sid) →
  ∃ sessions' s',
    SessionManager.set_map_view now sid view sessions = Ok (sessions', s', tt)
    ∧ let zoom := MapView.zoom (MapState.view (SessionState.map s')) in
      in_range PyFloat.f0_2 PyFloat.f8_0 zoom = true
      ∧ (in_range PyFloat.f0_2 PyFloat.f8_0 (MapView.zoom view) = true →
           zoom = MapView.zoom view).
Proof.
  intros Hs.
  destruct (set_map_view_returns now sid view sessions Hs)
    as (sessions' & s' & H).
  exists sessions', s'. split; [exact H|].
  apply set_map_view_inv in H.
  destruct (normalize_view_returns view) as (r & h & _ & _ & E).
  rewrite E in H. injection H as H. rewrite <- H. simpl.
  split; [by apply clamp_in_range|]. apply clamp_keeps.
Qed.

Lemma set_map_view_zoom_witness :
  ∃ sessions' s',
    SessionManager.set_map_view 1 "x" view_nan_zoom one_session
      = Ok (sessions', s', tt)
    ∧ MapView.zoom (MapState.view (SessionState.map s')) = PyFloat.f8_0.
Proof.
  destruct (set_map_view_zoom 1 "x" view_nan_zoom one_session)
    as (sessions' & s' & H & _); [by eexists|].
  exists sessions', s'. split; [exact H|].
  apply set_map_view_inv in H.
  assert (E : SessionManager.normalize_view view_nan_zoom
              = Ok (MapView.mk (WarpPoint.mk PyFloat.f0_5 PyFloat.f0_5)
                      PyFloat.f8_0 PyFloat.f0_0)) by (vm_compute; reflexivity).
  rewrite E in H. by injection H as <-.
Defined.

(** X18. [_clamp_or_default] is idempotent on the values it is given:
    clamping a coordinate that is already a clamped one returns it, for
    every float, so a client that sends back the coordinates it received
    does not move the token. *)
Theorem clamp_or_default_idempotent v d d' :
  _clamp_or_default (Some (_clamp_or_default (Some v) d)) d'
  = _clamp_or_default (Some v) d.
Proof. simpl. apply clamp_twice. Qed.

Section Frame.
Import SessionManager.

Lemma set_fields_map_synced m s :
  order_synced s → order_synced (SessionState.set_map m s).
Proof. by intros [E Hnd]. Qed.
End Frame.

(** X19. On a session whose order list is in step with its tokens,
    [set_warp] stores the warp it is given as it is (no clamping, and any
    number of corners), and [set_map_url] and [set_map_image] store the
    url; each changes nothing else of the session but the time stamp. *)
Theorem map_operations_frame now sid warp url
    (sessions : SessionManager.store) s :
  sessions !! upper sid = Some s →
  order_synced s →
  let stores m :=
    let s' := SessionState.set_updated_at now (SessionState.set_map m s) in
    Ok (<[upper sid := s']> sessions, s', tt) in
  SessionManager.set_warp now sid warp sessions
    = stores (MapState.set_warp warp (SessionState.map s))
  ∧ SessionManager.set_map_url now sid (MapUrlRequest.mk url) sessions
    = stores (MapState.set_image_url (Some url) (SessionState.map s))
  ∧ SessionManager.set_map_image now sid url sessions
    = stores (MapState.set_image_url (Some url) (SessionState.map s)).
Proof.
  intros Hs Hsync stores. unfold stores.
  unfold SessionManager.set_warp, SessionManager.set_map_url,
    SessionManager.set_map_image, SessionManager.set_image.
  split; [|split];
    (erewrite mutate_session_synced_returns;
       [done | exact Hs | done | by apply set_fields_map_synced]).
Qed.

Lemma map_operations_frame_witness :
  ∃ sessions' s',
    SessionManager.set_warp 9 "x" warp_one_corner {[ "X" := session_abc ]}
      = Ok (sessions', s', tt)
    ∧ MapState.warp (SessionState.map s') = warp_one_corner
    ∧ SessionState.token_order s' = ["a"; "b"; "c"].
Proof.
  destruct (map_operations_frame 9 "x" warp_one_corner ""
              {[ "X" := session_abc ]} session_abc) as (H & _).
  - reflexivity.
  - split; [reflexivity|]. repeat constructor; simpl; intuition discriminate.
  - eexists _, _. split; [exact H|]. by split.
Defined.

(** ** The registry of connections *)

(** X20. [disconnect] of a connection that the session's set does not
    hold, or for a session that has no set, leaves the registry as it
    is. *)
Theorem disconnect_absent_connection sid ws
    (connections : WebSocketManager.registry) :
  ws ∉ subscribers sid connections →
  WebSocketManager.disconnect sid ws connections = connections.
Proof.
  unfold subscribers, WebSocketManager.disconnect. intros Hws.
  destruct (connections !! sid) as [conns|] eqn:E; [|done]. simpl in Hws.
  rewrite bool_decide_eq_false_2 by done. rewrite andb_false_r.
  rewrite set_truthy_size. by apply insert_id.
Qed.

Lemma disconnect_absent_connection_witness :
  let connections : WebSocketManager.registry := {[ "X" := {[ 1%nat ]} ]} in
  WebSocketManager.disconnect "X" 2%nat connections = connections
  ∧ WebSocketManager.disconnect "Y" 1%nat connections = connections.
Proof.
  intros connections. split; apply disconnect_absent_connection.
  - unfold subscribers, connections. rewrite lookup_singleton_eq. simpl.
    apply not_elem_of_singleton. discriminate.
  - unfold subscribers, connections. rewrite lookup_singleton_ne by done.
    apply not_elem_of_empty.
Defined.

(** X21. [connect] followed by [disconnect] of the same connection leaves
    the session's other subscribers as they were and touches no other
    session, but the registry keeps an entry for the session even when
    it had none before: the entry is then the empty set. [connect] of a
    connection that is already registered changes nothing. *)
Theorem connect_then_disconnect sid ws
    (connections : WebSocketManager.registry) :
  WebSocketManager.disconnect sid ws
    (WebSocketManager.connect sid ws connections)
    = <[sid := subscribers sid connections ∖ {[ws]}]> connections
  ∧ WebSocketManager.connect sid ws
      (WebSocketManager.connect sid ws connections)
    = WebSocketManager.connect sid ws connections.
Proof.
  split.
  - apply map_eq. intros k. destruct (decide (sid = k)) as [<-|Hne].
    + rewrite disconnect_lookup. unfold WebSocketManager.connect.
      rewrite !lookup_insert_eq. simpl. f_equal. unfold subscribers.
      apply set_eq. intros w.
      rewrite !elem_of_difference, elem_of_union. tauto.
    + rewrite disconnect_lookup_ne by done. unfold WebSocketManager.connect.
      by rewrite !lookup_insert_ne.
  - unfold WebSocketManager.connect. rewrite lookup_insert_eq. simpl.
    rewrite insert_insert_eq. f_equal. apply set_eq. intros w.
    rewrite !elem_of_union. tauto.
Qed.

Section BroadcastFrame.
Import WebSocketManager.
Variable send_json : WebSocket → Message → option Exn.

(** What the loop of [broadcast_state] yields for every behaviour of the
    sends. *)
Lemma send_loop_any payload targets :
  let '(e, to_drop, sent) := send_loop send_json payload targets in
  e ≠ Some RuntimeError
  ∧ (∀ w, In w sent → In w targets ∧ send_json w payload = None)
  ∧ (∀ w, In w to_drop → In w targets).
Proof.
  induction targets as [|c r IH]; simpl; [by intuition|].
  destruct (send_loop send_json payload r) as [[e to_drop] sent].
  destruct IH as (He & Hsent & Hdrop).
  destruct (send_json c payload) as [[]|] eqn:E;
    try (split; [done | split; intros w []]).
  - split; [done|]. split.
    + intros w Hw. destruct (Hsent w Hw). tauto.
    + intros w [<-|Hw]; [tauto|]. right. by apply Hdrop.
  - split; [done|]. split.
    + intros w [<-|Hw]; [tauto|]. destruct (Hsent w Hw). tauto.
    + intros w Hw. right. by apply Hdrop.
Qed.
End BroadcastFrame.

Lemma broadcast_state_any
    (send_json : WebSocketManager.WebSocket → WebSocketManager.Message
                 → option Exn)
    sid state (connections : WebSocketManager.registry) :
  let out := WebSocketManager.broadcast_state send_json sid state connections in
  WebSocketManager.result out ≠ Raise RuntimeError
  ∧ (∀ w, In w (WebSocketManager.sent_to out) →
       w ∈ subscribers sid connections
       ∧ send_json w (WebSocketManager.StateMessage state) = None)
  ∧ subscribers sid (WebSocketManager.connections_after out)
    ⊆ subscribers sid connections
  ∧ (∀ sid', sid ≠ sid' →
       WebSocketManager.connections_after out !! sid' = connections !! sid')
  ∧ (∀ e, WebSocketManager.result out = Raise e →
       WebSocketManager.connections_after out = connections).
Proof.
  intros out. unfold out, WebSocketManager.broadcast_state.
  fold (subscribers sid connections).
  pose proof (send_loop_any send_json (WebSocketManager.StateMessage state)
                (elements (subscribers sid connections))) as H.
  destruct (WebSocketManager.send_loop send_json _ _) as [[e to_drop] sent].
  destruct H as (He & Hsent & Hdrop).
  destruct e as [e|]; simpl.
  - split; [congruence|]. split.
    + intros w Hw. destruct (Hsent w Hw) as [Hin Hok].
      by apply list_elem_of_In, elem_of_elements in Hin.
    + by split; [|split].
  - split; [done|]. split; [|split; [|split]].
    + intros w Hw. destruct (Hsent w Hw) as [Hin Hok].
      by apply list_elem_of_In, elem_of_elements in Hin.
    + unfold subscribers. rewrite (disconnect_all_lookup send_json).
      destruct (connections !! sid); simpl; [|done].
      intros w Hw. apply elem_of_difference in Hw. tauto.
    + intros sid' Hne. by apply disconnect_all_lookup_ne.
    + done.
Qed.

(** X22. Whatever the sends do, [broadcast_state] sends only to
    subscribers of the session, and only where the send succeeded; it
    never lets a [RuntimeError] out; the session's set afterwards is a
    part of what it was, and the sets of the other sessions are
    untouched; and when it raises, the registry is as it was. *)
Theorem broadcast_state_frame
    (send_json : WebSocketManager.WebSocket → WebSocketManager.Message
                 → option Exn)
    sid state (connections : WebSocketManager.registry) :
  let out := WebSocketManager.broadcast_state send_json sid state connections in
  WebSocketManager.result out ≠ Raise RuntimeError
  ∧ (∀ w, In w (WebSocketManager.sent_to out) →
       w ∈ subscribers sid connections
       ∧ send_json w (WebSocketManager.StateMessage state) = None)
  ∧ subscribers sid (WebSocketManager.connections_after out)
    ⊆ subscribers sid connections
  ∧ (∀ sid', sid ≠ sid' →
       WebSocketManager.connections_after out !! sid' = connections !! sid')
  ∧ (∀ e, WebSocketManager.result out = Raise e →
       WebSocketManager.connections_after out = connections).
Proof. apply broadcast_state_any. Qed.

(** X23. When no send fails otherwise than with a [RuntimeError],
    [broadcast_state] returns; the snapshot went, once each, to the
    subscribers whose send succeeded; and the session's set afterwards
    holds those subscribers and no other. *)
Theorem broadcast_state_prunes
    (send_json : WebSocketManager.WebSocket → WebSocketManager.Message
                 → option Exn)
    sid state (connections : WebSocketManager.registry) conns :
  connections !! sid = Some conns →
  only_runtime_errors send_json (WebSocketManager.StateMessage state)
    (elements conns) →
  let out := WebSocketManager.broadcast_state send_json sid state connections in
  WebSocketManager.result out = Ok tt
  ∧ (∀ w, w ∈ WebSocketManager.sent_to out
          ↔ w ∈ conns ∧ send_json w (WebSocketManager.StateMessage state) = None)
  ∧ NoDup (WebSocketManager.sent_to out)
  ∧ WebSocketManager.connections_after out !! sid
    = Some (filter
              (λ w, send_json w (WebSocketManager.StateMessage state) = None)
              conns).
Proof. apply broadcast_state_runtime_errors. Qed.

Lemma broadcast_state_prunes_witness :
  let connections : WebSocketManager.registry :=
    {[ "X" := {[ 1%nat; 2%nat ]} ]} in
  let out :=
    WebSocketManager.broadcast_state send_json_closed "X"
      (SessionState.init "X" None 0) connections in
  WebSocketManager.result out = Ok tt
  ∧ (1%nat ∈ WebSocketManager.sent_to out)
  ∧ WebSocketManager.connections_after out !! "X" = Some {[ 1%nat ]}.
Proof.
  intros connections out.
  destruct (broadcast_state_prunes send_json_closed "X"
              (SessionState.init "X" None 0) connections {[ 1%nat; 2%nat ]})
    as (Hr & Hs & _ & Hc).
  - apply lookup_singleton_eq.
  - intros c e _. unfold send_json_closed.
    destruct (Nat.eqb c 2); [by intros [= <-] | discriminate].
  - split; [exact Hr|]. split.
    + apply Hs. split; [|reflexivity].
      apply elem_of_union. left. by apply elem_of_singleton.
    + fold out in Hc. rewrite Hc. reflexivity.
Defined.

(** ** The request handlers *)

Section HandlersProperties.
Import Handlers.
Variable send_json :
  WebSocketManager.WebSocket → WebSocketManager.Message → option Exn.
Variable accept : WebSocketManager.WebSocket → option Exn.

Lemma mutate_session_missing {A} now sid
    (mutator : SessionState.t → Result (SessionState.t * A))
    (sessions : SessionManager.store) :
  sessions !! upper sid = None →
  SessionManager.mutate_session now (upper sid) mutator sessions
  = Raise SessionManager.session_not_found.
Proof.
  intros Hs. unfold SessionManager.mutate_session. by rewrite upper_idem, Hs.
Qed.

Lemma handlers_missing now u sid tid url warp tpayload upayload ws app :
  sessions app !! upper sid = None →
  set_map_url send_json now sid url app
    = raised SessionManager.session_not_found app
  ∧ update_warp send_json now sid warp app
    = raised SessionManager.session_not_found app
  ∧ create_token send_json u now sid tpayload app
    = raised SessionManager.session_not_found app
  ∧ update_token send_json now sid tid upayload app
    = raised SessionManager.session_not_found app
  ∧ delete_token send_json now sid tid app
    = raised SessionManager.session_not_found app
  ∧ returned (read_session sid app) = Raise SessionManager.session_not_found
  ∧ websocket_open send_json accept ws sid app = (Closed 4404, app).
Proof.
  intros Hs.
  unfold set_map_url, update_warp, create_token, update_token, delete_token,
    read_session, websocket_open, _normalize_session_id,
    SessionManager.set_map_url, SessionManager.set_warp,
    SessionManager.add_token, SessionManager.update_token,
    SessionManager.delete_token, SessionManager.require_session.
  rewrite !mutate_session_missing by done. by rewrite Hs.
Qed.

Lemma read_and_broadcast_stored sid sessions' app s' :
  sessions' !! upper sid = Some s' →
  read_and_broadcast send_json (upper sid) sessions' app
  = _broadcast send_json (upper sid) s' (mk_app sessions' (connections app)).
Proof.
  intros Hs. unfold read_and_broadcast, SessionManager.require_session.
  by rewrite upper_idem, Hs.
Qed.

Lemma _broadcast_any sid state app :
  let r := _broadcast send_json (upper sid) state app in
  sessions (app_after r) = sessions app
  ∧ (returned r = Ok state
     ∨ ∃ e, returned r = Raise e ∧ e ≠ RuntimeError
            ∧ connections (app_after r) = connections app)
  ∧ (∀ w, In w (reached r) →
       w ∈ subscribers (upper sid) (connections app)
       ∧ send_json w (WebSocketManager.StateMessage state) = None).
Proof.
  intros r. unfold r, _broadcast, _normalize_session_id. rewrite upper_idem.
  destruct (broadcast_state_any send_json (upper sid) state (connections app))
    as (Hrt & Hsent & _ & _ & Hraise).
  simpl. split; [done|]. split; [|done].
  destruct (WebSocketManager.result _) as [[]|e] eqn:E; [by left|].
  right. exists e. simpl. split; [done|]. split; [congruence|].
  by apply (Hraise e).
Qed.

Lemma _broadcast_all_sent sid state app :
  (∀ w m, send_json w m = None) →
  let r := _broadcast send_json (upper sid) state app in
  returned r = Ok state
  ∧ ∀ w, w ∈ subscribers (upper sid) (connections app) → In w (reached r).
Proof.
  intros Hok r. unfold r, _broadcast, _normalize_session_id.
  rewrite upper_idem. unfold subscribers.
  destruct (connections app !! upper sid) as [conns|] eqn:E.
  - destruct (broadcast_state_runtime_errors send_json (upper sid) state
                (connections app) conns E) as (Hr & Hs & _).
    { intros c e _ Hc. by rewrite Hok in Hc. }
    simpl. rewrite Hr. split; [done|]. intros w Hw.
    apply list_elem_of_In, Hs. by split.
  - unfold WebSocketManager.broadcast_state. rewrite E. simpl.
    rewrite elements_empty. simpl. split; [done|].
    intros w Hw. by apply not_elem_of_empty in Hw.
Qed.
End HandlersProperties.

(** X24. On an id that names no session, each handler that mutates (set
    map url, update warp, create, update and delete token) raises the 404
    error "Session not found" before anything is stored or sent, the
    read handler raises it too, and the websocket handler closes the
    socket with code 4404 without registering it. *)
Theorem handlers_on_missing_session
    (send_json : WebSocketManager.WebSocket → WebSocketManager.Message
                 → option Exn)
    (accept : WebSocketManager.WebSocket → option Exn)
    now u sid tid url warp tpayload upayload ws app :
  Handlers.sessions app !! upper sid = None →
  Handlers.set_map_url send_json now sid url app
    = Handlers.raised SessionManager.session_not_found app
  ∧ Handlers.update_warp send_json now sid warp app
    = Handlers.raised SessionManager.session_not_found app
  ∧ Handlers.create_token send_json u now sid tpayload app
    = Handlers.raised SessionManager.session_not_found app
  ∧ Handlers.update_token send_json now sid tid upayload app
    = Handlers.raised SessionManager.session_not_found app
  ∧ Handlers.delete_token send_json now sid tid app
    = Handlers.raised SessionManager.session_not_found app
  ∧ Handlers.returned (Handlers.read_session sid app)
    = Raise SessionManager.session_not_found
  ∧ Handlers.websocket_open send_json accept ws sid app
    = (Handlers.Closed 4404, app).
Proof. apply handlers_missing. Qed.

Lemma handlers_on_missing_session_witness :
  Handlers.sessions app_empty !! upper "x" = None
  ∧ Handlers.delete_token send_json_ok 1 "x" "a" app_empty
    = Handlers.raised SessionManager.session_not_found app_empty
  ∧ Handlers.websocket_open send_json_ok accept_ok 1%nat "x" app_empty
    = (Handlers.Closed 4404, app_empty).
Proof.
  split; [apply lookup_empty|].
  destruct (handlers_on_missing_session send_json_ok accept_ok 1 "" "x" "a"
              (MapUrlRequest.mk "") (WarpUpdateRequest.mk warp_one_corner)
              token_request TokenUpdateRequest.empty 1%nat app_empty)
    as (_ & _ & _ & _ & Hd & _ & Hw); [apply lookup_empty|].
  by split.
Defined.

(** X25. The create-token handler stores the token before it broadcasts,
    and a broadcast that raises does not undo the add: whatever the sends
    do, the store afterwards holds the session with the new token last;
    the handler either returns that session or raises what a send raised
    (never a [RuntimeError]); and the snapshot goes to no connection
    outside the session's subscribers. *)
Theorem create_token_handler_stores
    (send_json : WebSocketManager.WebSocket → WebSocketManager.Message
                 → option Exn)
    u now sid payload app s :
  Handlers.sessions app !! upper sid = Some s →
  order_synced s →
  ¬ In u (SessionState.token_order s) →
  let r := Handlers.create_token send_json u now sid payload app in
  ∃ s',
    Handlers.sessions (Handlers.app_after r)
      = <[upper sid := s']> (Handlers.sessions app)
    ∧ SessionState.tokens s'
      = SessionState.tokens s ++ [SessionManager.new_token u payload]
    ∧ (Handlers.returned r = Ok s'
       ∨ ∃ e, Handlers.returned r = Raise e ∧ e ≠ RuntimeError)
    ∧ (∀ w, In w (Handlers.reached r) →
         w ∈ subscribers (upper sid) (Handlers.connections app)).
Proof.
  intros Hs Hsync Hfresh r. unfold r, Handlers.create_token,
    Handlers._normalize_session_id.
  assert (Hs' : Handlers.sessions app !! upper (upper sid) = Some s)
    by by rewrite upper_idem.
  rewrite (add_token_returns u now (upper sid) payload _ s Hs' Hsync Hfresh).
  cbv zeta. rewrite upper_idem.
  erewrite read_and_broadcast_stored by apply lookup_insert_eq.
  match goal with
  | |- context [Handlers._broadcast send_json (upper sid) ?st ?ap] =>
      destruct (_broadcast_any send_json sid st ap) as (Hst & Hret & Hreach)
  end.
  eexists. split; [exact Hst|]. split; [done|]. split.
  - destruct Hret as [?|(e & ? & ? & _)]; [by left | right; by exists e].
  - intros w Hw. by destruct (Hreach w Hw).
Qed.

Lemma create_token_handler_stores_witness :
  let r :=
    Handlers.create_token send_json_disconnected "d" 3 "x" token_request
      app_abc_dead in
  Handlers.returned r = Raise WebSocketDisconnect
  ∧ ∃ s',
      Handlers.sessions (Handlers.app_after r) !! "X" = Some s'
      ∧ token_ids (SessionState.tokens s') = ["a"; "b"; "c"; "d"].
Proof.
  intros r.
  destruct (create_token_handler_stores send_json_disconnected "d" 3 "x"
              token_request app_abc_dead session_abc)
    as (s' & Hst & Ht & _ & _).
  - reflexivity.
  - split; [reflexivity|]. repeat constructor; simpl; intuition discriminate.
  - simpl. intuition discriminate.
  - split; [reflexivity|]. exists s'. fold r in Hst. rewrite Hst.
    split; [apply lookup_insert_eq|]. by rewrite Ht.
Defined.

Lemma websocket_open_any
    (send_json : WebSocketManager.WebSocket → WebSocketManager.Message
                 → option Exn)
    (accept : WebSocketManager.WebSocket → option Exn)
    ws sid app s :
  Handlers.sessions app !! upper sid = Some s →
  accept ws = None →
  let o := Handlers.websocket_open send_json accept ws sid app in
  ws ∈ subscribers (SessionState.id s) (Handlers.connections (snd o))
  ∧ Handlers.sessions (snd o) = Handlers.sessions app
  ∧ fst o
    = match send_json ws (WebSocketManager.StateMessage s) with
      | None => Handlers.Listening s
      | Some e => Handlers.Failed e
      end.
Proof.
  intros Hs Hacc o. unfold o, Handlers.websocket_open,
    SessionManager.require_session. rewrite Hs, Hacc.
  assert (Hin : ws ∈ subscribers (SessionState.id s)
                  (WebSocketManager.connect (SessionState.id s) ws
                     (Handlers.connections app))).
  { unfold subscribers, WebSocketManager.connect. rewrite lookup_insert_eq.
    simpl. apply elem_of_union. right. by apply elem_of_singleton. }
  by destruct (send_json ws (WebSocketManager.StateMessage s)).
Qed.

(** X26. For an existing session, once the socket is accepted, the
    websocket handler registers it among the subscribers of the session's
    id and sends it the stored session; when that first send raises, the
    exception leaves the handler and the socket stays registered, since
    the send is outside the handler's [try]. The store is not touched. *)
Theorem websocket_open_registers
    (send_json : WebSocketManager.WebSocket → WebSocketManager.Message
                 → option Exn)
    (accept : WebSocketManager.WebSocket → option Exn)
    ws sid app s :
  Handlers.sessions app !! upper sid = Some s →
  accept ws = None →
  let o := Handlers.websocket_open send_json accept ws sid app in
  ws ∈ subscribers (SessionState.id s) (Handlers.connections (snd o))
  ∧ Handlers.sessions (snd o) = Handlers.sessions app
  ∧ fst o
    = match send_json ws (WebSocketManager.StateMessage s) with
      | None => Handlers.Listening s
      | Some e => Handlers.Failed e
      end.
Proof. apply websocket_open_any. Qed.

Lemma websocket_open_registers_witness :
  let o :=
    Handlers.websocket_open send_json_disconnected accept_ok 1%nat "x" app_abc
  in
  fst o = Handlers.Failed WebSocketDisconnect
  ∧ 1%nat ∈ subscribers "X" (Handlers.connections (snd o)).
Proof.
  intros o.
  destruct (websocket_open_registers send_json_disconnected accept_ok 1%nat
              "x" app_abc session_abc) as (Hin & _ & Ho);
    [reflexivity | reflexivity |].
  split; [exact Ho | exact Hin].
Defined.

(** X27. A connection that subscribed under one spelling of a session's
    id is reached by a token added under any other spelling: when the
    session is stored under its id (as every session of the store is) and
    the sends succeed, the websocket handler first sends the session as
    it is, and the create-token handler then returns, and sends to that
    connection, the session with the new token last. *)
Theorem subscriber_receives_added_token
    (send_json : WebSocketManager.WebSocket → WebSocketManager.Message
                 → option Exn)
    (accept : WebSocketManager.WebSocket → option Exn)
    ws sid sid' u now payload app s :
  (∀ w m, send_json w m = None) →
  accept ws = None →
  Handlers.sessions app !! upper sid = Some s →
  SessionState.id s = upper sid →
  order_synced s →
  ¬ In u (SessionState.token_order s) →
  upper sid' = upper sid →
  let o := Handlers.websocket_open send_json accept ws sid app in
  let r := Handlers.create_token send_json u now sid' payload (snd o) in
  fst o = Handlers.Listening s
  ∧ ∃ s',
      Handlers.returned r = Ok s'
      ∧ In ws (Handlers.reached r)
      ∧ SessionState.tokens s'
        = SessionState.tokens s ++ [SessionManager.new_token u payload]
      ∧ Handlers.sessions (Handlers.app_after r) !! upper sid = Some s'.
Proof.
  intros Hok Hacc Hs Hid Hsync Hfresh Hsid o r.
  destruct (websocket_open_any send_json accept ws sid app s Hs Hacc)
    as (Hin & Hst & Ho).
  fold o in Hin, Hst, Ho. rewrite Hok in Ho. split; [exact Ho|].
  unfold r, Handlers.create_token, Handlers._normalize_session_id.
  rewrite Hsid, Hst.
  assert (Hs' : Handlers.sessions app !! upper (upper sid) = Some s)
    by by rewrite upper_idem.
  rewrite (add_token_returns u now (upper sid) payload _ s Hs' Hsync Hfresh).
  cbv zeta. rewrite upper_idem.
  erewrite read_and_broadcast_stored by apply lookup_insert_eq.
  match goal with
  | |- context [Handlers._broadcast send_json (upper sid) ?st ?ap] =>
      destruct (_broadcast_all_sent send_json sid st ap Hok) as (Hret & Hall);
      destruct (_broadcast_any send_json sid st ap) as (Hstore & _)
  end.
  eexists. split; [exact Hret|]. split; [|split; [done|]].
  - apply Hall. simpl. by rewrite <- Hid.
  - rewrite Hstore. simpl. apply lookup_insert_eq.
Qed.

Lemma subscriber_receives_added_token_witness :
  let o := Handlers.websocket_open send_json_ok accept_ok 1%nat "x" app_abc in
  let r :=
    Handlers.create_token send_json_ok "d" 3 "X" token_request (snd o) in
  fst o = Handlers.Listening session_abc
  ∧ ∃ s',
      Handlers.returned r = Ok s'
      ∧ In 1%nat (Handlers.reached r)
      ∧ token_ids (SessionState.tokens s') = ["a"; "b"; "c"; "d"].
Proof.
  intros o r.
  destruct (subscriber_receives_added_token send_json_ok accept_ok 1%nat
              "x" "X" "d" 3 token_request app_abc session_abc)
    as (Ho & s' & Hr & Hin & Ht & _).
  - done.
  - done.
  - reflexivity.
  - reflexivity.
  - split; [reflexivity|]. repeat constructor; simpl; intuition discriminate.
  - simpl. intuition discriminate.
  - reflexivity.
  - split; [exact Ho|]. exists s'. split; [exact Hr|]. split; [exact Hin|].
    by rewrite Ht.
Defined.
